(** * bitwarden-to-pass: a shallow embedding of bitwarden-to-pass.py

    The item formatter ([BWItem]), the pass store client ([PassCli]),
    the unlock loop ([BWCli.unlock]) and the main synchronisation loop
    ([main]) are embedded below, followed by the properties of the spec. *)

From Stdlib Require Import String Ascii Bool Arith Lia DecimalNat.
From stdpp Require Import base gmap strings list.

Open Scope string_scope.

(* stdpp makes [String.append] opaque to [simpl]; the proofs below
   compute with it. *)
#[local] Arguments String.append : simpl nomatch.

(* ------------------------------------------------------------------ *)
(** ** Python values and helpers *)

(** A nullable JSON string as loaded by [json.loads]: [None] is
    Python's [None] (JSON [null]).  The Bitwarden item schema only
    carries strings or [null] in the fields the formatter reads. *)
Abbreviation pystr := (option string).

(** [str(v)] / ["{}".format(v)] of a nullable string. *)
Definition py_str (v : pystr) : string :=
  match v with Some s => s | None => "None" end.

(** [str(n)] of a non-negative Python int: its decimal digits. *)
Fixpoint string_of_uint (d : Decimal.uint) : string :=
  match d with
  | Decimal.Nil => ""
  | Decimal.D0 d => String "0" (string_of_uint d)
  | Decimal.D1 d => String "1" (string_of_uint d)
  | Decimal.D2 d => String "2" (string_of_uint d)
  | Decimal.D3 d => String "3" (string_of_uint d)
  | Decimal.D4 d => String "4" (string_of_uint d)
  | Decimal.D5 d => String "5" (string_of_uint d)
  | Decimal.D6 d => String "6" (string_of_uint d)
  | Decimal.D7 d => String "7" (string_of_uint d)
  | Decimal.D8 d => String "8" (string_of_uint d)
  | Decimal.D9 d => String "9" (string_of_uint d)
  end.

Definition str_nat (n : nat) : string := string_of_uint (Nat.to_uint n).

(** [enumerate(l, start)]: the list paired with its indices. *)
Fixpoint enumerate {A} (start : nat) (l : list A) : list (nat * A) :=
  match l with
  | [] => []
  | x :: r => (start, x) :: enumerate (S start) r
  end.

(** [d.get(key, [])] for an optional list-valued key. *)
Definition get_list {A} (o : option (list A)) : list A :=
  match o with Some l => l | None => [] end.

(** Python [dict]: an insertion-ordered association list.  Assigning an
    existing key replaces its value in place; a new key is appended. *)
Definition dict := list (string * pystr).

Fixpoint dset (d : dict) (k : string) (v : pystr) : dict :=
  match d with
  | [] => [(k, v)]
  | (k', v') :: r => if String.eqb k k' then (k, v) :: r else (k', v') :: dset r k v
  end.

(** [d.update(e)]: assign the entries of [e] in their order. *)
Definition dupdate (d e : dict) : dict :=
  fold_left (fun acc kv => dset acc kv.1 kv.2) e d.

(** Errors the program can raise. *)
Inductive error :=
  | UnknownItemType (t : Z)   (* Exception('Unknown item type: ...') *)
  | KeyError (k : string)     (* item[k] on an absent key *)
  | OSError (path : string).  (* os.remove on a path that is no file *)

Inductive result (A : Type) :=
  | Ok (a : A)
  | Err (e : error).
Arguments Ok {A} a.
Arguments Err {A} e.

#[global] Instance result_ret : MRet result := fun A a => Ok a.
#[global] Instance result_bind : MBind result :=
  fun A B f r => match r with Ok a => f a | Err e => Err e end.

(* ------------------------------------------------------------------ *)
(** ** Bitwarden items (the JSON records of [bw list items]) *)

Record uri_t := { uri : pystr }.

Record login_t := {
  username : pystr; password : pystr; totp : pystr;
  uris : option (list uri_t)            (* the key 'uris' may be absent *)
}.

Record card_t := {
  cardholderName : pystr; brand : pystr; number : pystr;
  expMonth : pystr; expYear : pystr; code : pystr
}.

Record identity_t := {
  title : pystr; firstName : pystr; middleName : pystr; lastName : pystr;
  address1 : pystr; address2 : pystr; address3 : pystr; city : pystr;
  state : pystr; postalCode : pystr; country : pystr; company : pystr;
  email : pystr; phone : pystr; ssn : pystr; id_username : pystr;
  passportNumber : pystr; licenseNumber : pystr
}.

Record field_t := { field_name : pystr; field_value : pystr }.

Record attachment_t := { fileName : pystr; sizeName : pystr; url : pystr }.

(** An item; the payload keys 'login', 'card', 'identity' and the list
    keys 'fields', 'attachments' may be absent ([None]). *)
Record item := {
  id : string;
  name : string;
  type : Z;
  login : option login_t;
  card : option card_t;
  identity : option identity_t;
  fields : option (list field_t);
  attachments : option (list attachment_t);
  notes : pystr
}.

Definition require {A} (k : string) (o : option A) : result A :=
  match o with Some a => Ok a | None => Err (KeyError k) end.

(* ------------------------------------------------------------------ *)
(** ** BWItem *)

(** [BWItem.item_type] *)
Definition item_type (it : item) : result string :=
  let t := type it in
  if Z.eqb t 1 then Ok "login"
  else if Z.eqb t 2 then Ok "note"
  else if Z.eqb t 3 then Ok "card"
  else if Z.eqb t 4 then Ok "identity"
  else Err (UnknownItemType t).

(** [re.sub('[-_|]', ' ', s)] *)
Fixpoint sub_separators (s : string) : string :=
  match s with
  | EmptyString => EmptyString
  | String c r =>
      let c' := if (c =? "-")%char || (c =? "_")%char || (c =? "|")%char
                then " "%char else c in
      String c' (sub_separators r)
  end.

(** [re.sub(' +', '-', s)]: the scan copies characters and replaces each
    leftmost longest run of spaces by one hyphen; [in_run] records that
    the previous character was a space of the current match. *)
Fixpoint sub_space_runs_from (in_run : bool) (s : string) : string :=
  match s with
  | EmptyString => EmptyString
  | String c r =>
      if (c =? " ")%char
      then if in_run then sub_space_runs_from true r
           else String "-" (sub_space_runs_from true r)
      else String c (sub_space_runs_from false r)
  end.

Definition sub_space_runs (s : string) : string := sub_space_runs_from false s.

(** [str.lower()] on the code points 0..255 a Rocq [ascii] carries:
    'A'..'Z' and the Latin-1 capitals U+00C0..U+00DE except U+00D7
    move up by 32; every other character is unchanged. *)
Definition lower_char (c : ascii) : ascii :=
  let n := nat_of_ascii c in
  if (Nat.leb 65 n && Nat.leb n 90)
     || (Nat.leb 192 n && Nat.leb n 222 && negb (Nat.eqb n 215))
  then ascii_of_nat (n + 32) else c.

Fixpoint lower (s : string) : string :=
  match s with
  | EmptyString => EmptyString
  | String c r => String (lower_char c) (lower r)
  end.

(** [s.split('-')[0]]: the part of [s] before its first '-'. *)
Fixpoint split_dash_head (s : string) : string :=
  match s with
  | EmptyString => EmptyString
  | String c r => if (c =? "-")%char then EmptyString else String c (split_dash_head r)
  end.

(** [s[0:4]] *)
Definition slice4 (s : string) : string := substring 0 4 s.

(** [BWItem.passname] *)
Definition passname (it : item) : result string :=
  let id_head := split_dash_head (id it) in
  let nm := sub_space_runs (sub_separators (name it)) in
  t ← item_type it;
  Ok (lower nm +:+ "-" +:+ t +:+ "-" +:+ slice4 id_head).

(** [BWItem.format_card] *)
Definition format_card (c : card_t) : dict :=
  let d := dset [] "Card Holder Name" (cardholderName c) in
  let d := dset d "Card Brand" (brand c) in
  let d := dset d "Card Number" (number c) in
  let d := dset d "Card Expire MM/YYYY"
             (Some (py_str (expMonth c) +:+ "/" +:+ py_str (expYear c))) in
  dset d "Card Security Code" (code c).

(** [BWItem.format_identity] *)
Definition format_identity (i : identity_t) : dict :=
  let d := dset [] "ID Title" (title i) in
  let d := dset d "ID FirstName" (firstName i) in
  let d := dset d "ID MiddleName" (middleName i) in
  let d := dset d "ID LastName" (lastName i) in
  let d := dset d "ID Address1" (address1 i) in
  let d := dset d "ID Address2" (address2 i) in
  let d := dset d "ID Address3" (address3 i) in
  let d := dset d "ID City" (city i) in
  let d := dset d "ID State" (state i) in
  let d := dset d "ID PostalCode" (postalCode i) in
  let d := dset d "ID Country" (country i) in
  let d := dset d "ID Company" (company i) in
  let d := dset d "ID Email" (email i) in
  let d := dset d "ID Phone" (phone i) in
  let d := dset d "ID SSN" (ssn i) in
  let d := dset d "ID Username" (id_username i) in
  let d := dset d "ID Passport Number" (passportNumber i) in
  dset d "ID License Number" (licenseNumber i).

(** [BWItem.format_login]; [uris[0]] is read when [len(uris) == 1]. *)
Definition format_login (l : login_t) : dict :=
  let d := dset [] "Username" (username l) in
  let d := dset d "Password" (password l) in
  let d := dset d "TOTP" (totp l) in
  let us := get_list (uris l) in
  if Nat.eqb (length us) 1
  then match us with u0 :: _ => dset d "URL" (uri u0) | [] => d end
  else fold_left (fun d iu => dset d ("URL " +:+ str_nat (iu.1 + 1)) (uri iu.2))
         (enumerate 0 (get_list (uris l))) d.

(** The custom-fields loop of [BWItem.format]. *)
Definition add_custom_fields (d : dict) (fs : list field_t) : dict :=
  fold_left (fun d jf =>
      dset d ("[Custom Field " +:+ str_nat (jf.1 + 1) +:+ "] " +:+ py_str (field_name jf.2))
           (field_value jf.2))
    (enumerate 0 fs) d.

(** The attachments loop of [BWItem.format]. *)
Definition add_attachments (d : dict) (atts : list attachment_t) : dict :=
  fold_left (fun d ja =>
      let d := dset d ("Attachment " +:+ str_nat ja.1 +:+ " File Name") (fileName ja.2) in
      let d := dset d ("Attachment " +:+ str_nat ja.1 +:+ " File Size") (sizeName ja.2) in
      dset d ("Attachment " +:+ str_nat ja.1 +:+ " URL") (url ja.2))
    (enumerate 0 atts) d.

(** The type-specific branch of [BWItem.format]. *)
Definition add_type_fields (d : dict) (t : string) (it : item) : result dict :=
  if String.eqb t "login" then
    l ← require "login" (login it); Ok (dupdate d (format_login l))
  else if String.eqb t "note" then Ok d
  else if String.eqb t "card" then
    c ← require "card" (card it); Ok (dupdate d (format_card c))
  else if String.eqb t "identity" then
    i ← require "identity" (identity it); Ok (dupdate d (format_identity i))
  else Ok d.

(** The dictionary [d] built by [BWItem.format] before rendering. *)
Definition format_dict (it : item) : result dict :=
  t ← item_type it;
  d ← add_type_fields (dset [] "Name" (Some (name it))) t it;
  let d := add_custom_fields d (get_list (fields it)) in
  let d := add_attachments d (get_list (attachments it)) in
  Ok (dset d "Notes" (notes it)).

(** The entries kept by [if not v is None], in dictionary order. *)
Fixpoint emitted (d : dict) : list (string * string) :=
  match d with
  | [] => []
  | (k, Some v) :: r => (k, v) :: emitted r
  | (k, None) :: r => emitted r
  end.

(** ["{}: {}".format(k, v)] *)
Definition render (kv : string * string) : string := kv.1 +:+ ": " +:+ kv.2.

(** The lines of the body, one per emitted entry. *)
Definition format_lines (it : item) : result (list string) :=
  d ← format_dict it; Ok (map render (emitted d)).

(** [BWItem.format]: ['\n'.join(lines) + '\n']. *)
Definition format (it : item) : result string :=
  ls ← format_lines it; Ok (String.concat (String "010" "") ls +:+ String "010" "").

(* ------------------------------------------------------------------ *)
(** ** BWCli.unlock *)

(** [outs k] is the decoded standard output of the [k]-th run of
    [bw unlock --raw].  The [while True] loop is unbounded; it is
    embedded with a number of iterations [fuel], [None] meaning that
    the loop is still polling after [fuel] runs. *)
Fixpoint unlock_from (outs : nat -> string) (fuel k : nat) : option string :=
  match fuel with
  | 0 => None
  | S f =>
      let session := outs k in
      if Nat.ltb 0 (String.length session) then Some session
      else unlock_from outs f (S k)
  end.

Definition unlock (outs : nat -> string) (fuel : nat) : option string :=
  unlock_from outs fuel 0.

(* ------------------------------------------------------------------ *)
(** ** PassCli *)

(** The password store directory: entry name [n] is the file
    [n ++ ".gpg"] below [PASSWORD_STORE_DIR]; a name with '/' lives in a
    subdirectory.  The map sends each entry name to the body last given
    to [pass insert] for it (the plaintext of the encrypted file). *)
Abbreviation store := (gmap string string).

(** [PassCli.get_file_path] relative to the store directory. *)
Definition get_file_path (nm : string) : string := nm +:+ ".gpg".

Definition is_file (fs : store) (nm : string) : bool := bool_decide (nm ∈ dom fs).

(** A path [p] is a directory when some file lies below it. *)
Definition is_dir (fs : store) (p : string) : bool :=
  existsb (fun e => String.prefix (p +:+ "/") (get_file_path e)) (elements (dom fs)).

(** [PassCli.pass_exists]: [os.path.exists] holds for files and
    directories. *)
Definition pass_exists (fs : store) (nm : string) : bool :=
  is_file fs nm || is_dir fs (get_file_path nm).

(** The external commands and file removals the program performs on
    the store, in order. *)
Inductive op :=
  | Rm (nm : string)                  (* os.remove(get_file_path(nm)) *)
  | Ins (nm : string) (body : string). (* pass insert -m nm  < body *)

Record st := { store_of : store; log : list op }.

(** [PassCli.remove_force]: [os.remove] raises unless the path is a
    file. *)
Definition remove_force (s : st) (nm : string) : st * result unit :=
  if is_file (store_of s) nm
  then ({| store_of := delete nm (store_of s); log := log s ++ [Rm nm] |}, Ok ())
  else (s, Err (OSError (get_file_path nm))).

(** [PassCli.insert]: [pass insert -m nm] with the body on its input.
    The [Ins] record is the call itself, which the program makes in
    every case; the store is as the call leaves it when pass succeeds,
    the entry [nm] then holding the body.  The exit status is ignored:
    when pass fails (it reads a name starting with '-' as options, since
    no '--' precedes the name) nothing is written, a case the store part
    of this embedding does not cover. *)
Definition insert (s : st) (nm content : string) : st :=
  {| store_of := <[nm := content]> (store_of s); log := log s ++ [Ins nm content] |}.

(** The part of a path before its first '/', if it has one. *)
Fixpoint split_slash (s : string) : option string :=
  match s with
  | EmptyString => None
  | String c r =>
      if (c =? "/")%char then Some EmptyString
      else match split_slash r with Some h => Some (String c h) | None => None end
  end.

(** The name of the entry of the store directory that contains the file
    of entry [nm]: the file itself, or its top subdirectory. *)
Definition top_component (nm : string) : string :=
  match split_slash nm with Some h => h | None => get_file_path nm end.

(** [os.scandir(pass_directory)]: the names of the directory's entries,
    each once.  Their order is the file system's; here they come in the
    order of the set, and statements that depend on the order take the
    listing as a hypothesis. *)
Definition scandir (fs : store) : list string :=
  elements (set_map top_component (dom fs) : gset string).

(** [str.endswith] and [str.removesuffix]. *)
Definition endswith (s suf : string) : bool :=
  Nat.leb (String.length suf) (String.length s)
  && String.eqb (substring (String.length s - String.length suf) (String.length suf) s) suf.

Definition removesuffix (s suf : string) : string :=
  if endswith s suf then substring 0 (String.length s - String.length suf) s else s.

(** [PassCli.list_pass_names] *)
Definition list_pass_names (fs : store) : list string :=
  map (fun n => removesuffix n ".gpg") (List.filter (fun n => endswith n ".gpg") (scandir fs)).

(* ------------------------------------------------------------------ *)
(** ** main *)

(** One iteration of the [for bw_item in bw_items] loop. *)
Definition process_item (s : st) (it : item) : st * result unit :=
  match passname it with
  | Err e => (s, Err e)
  | Ok nm =>
      match format it with
      | Err e => (s, Err e)
      | Ok content =>
          let '(s', r) := if pass_exists (store_of s) nm then remove_force s nm
                          else (s, Ok ()) in
          match r with
          | Err e => (s', Err e)
          | Ok _ => (insert s' nm content, Ok ())
          end
      end
  end.

Fixpoint sync_items (s : st) (items : list item) : st * result unit :=
  match items with
  | [] => (s, Ok ())
  | it :: rest =>
      match process_item s it with
      | (s', Err e) => (s', Err e)
      | (s', Ok _) => sync_items s' rest
      end
  end.

Definition warning_header : string :=
  "WARNING: Ignored the following password entries. Possibly deleted from bitwarden?".

(** The lines printed for the ignored entries. *)
Definition warning_lines (ignored : list string) : list string :=
  if Nat.ltb 0 (length ignored)
  then warning_header :: map (fun e => String "009" "" +:+ e) ignored
  else [].

(** [main] from the parsed item list on: the store is snapshot, the
    items are synchronised, and the orphan warning lines are returned.
    Unlocking, syncing and listing do not touch the store. *)
Definition main_run (items : list item) (s : st) : st * result (list string) :=
  let existing := list_pass_names (store_of s) in
  match sync_items s items with
  | (s', Err e) => (s', Err e)
  | (s', Ok _) =>
      match mapM passname items with
      | Err e => (s', Err e)
      | Ok synced =>
          let ignored := List.filter (fun e => negb (existsb (String.eqb e) synced)) existing in
          (s', Ok (warning_lines ignored))
      end
  end.

Definition run_on (items : list item) (fs : store) : st * result (list string) :=
  main_run items {| store_of := fs; log := [] |}.

(** The [pass insert] calls of a log. *)
Definition inserts (l : list op) : list (string * string) :=
  omap (fun o => match o with Ins n b => Some (n, b) | Rm _ => None end) l.

(** The store obtained by giving each body of [l] to [pass insert], in
    order, starting from [m]. *)
Definition apply_inserts (l : list (string * string)) (m : store) : store :=
  fold_left (fun acc nb => <[nb.1 := nb.2]> acc) l m.

(* ------------------------------------------------------------------ *)
(** ** The entries [BWItem.format] assigns, as lists *)

Definition url_entries (us : list uri_t) : dict :=
  match us with
  | [u] => [("URL", uri u)]
  | _ => map (fun iu => ("URL " +:+ str_nat (iu.1 + 1), uri iu.2)) (enumerate 0 us)
  end.

Definition login_entries (l : login_t) : dict :=
  ([("Username", username l); ("Password", password l); ("TOTP", totp l)]
   ++ url_entries (get_list (uris l)))%list.

Definition card_entries (c : card_t) : dict :=
  [("Card Holder Name", cardholderName c); ("Card Brand", brand c);
   ("Card Number", number c);
   ("Card Expire MM/YYYY", Some (py_str (expMonth c) +:+ "/" +:+ py_str (expYear c)));
   ("Card Security Code", code c)].

Definition identity_entries (i : identity_t) : dict :=
  [("ID Title", title i); ("ID FirstName", firstName i); ("ID MiddleName", middleName i);
   ("ID LastName", lastName i); ("ID Address1", address1 i); ("ID Address2", address2 i);
   ("ID Address3", address3 i); ("ID City", city i); ("ID State", state i);
   ("ID PostalCode", postalCode i); ("ID Country", country i); ("ID Company", company i);
   ("ID Email", email i); ("ID Phone", phone i); ("ID SSN", ssn i);
   ("ID Username", id_username i); ("ID Passport Number", passportNumber i);
   ("ID License Number", licenseNumber i)].

Definition custom_key (j : nat) (f : field_t) : string :=
  "[Custom Field " +:+ str_nat (j + 1) +:+ "] " +:+ py_str (field_name f).

Definition custom_entries (fs : list field_t) : dict :=
  map (fun jf => (custom_key jf.1 jf.2, field_value jf.2)) (enumerate 0 fs).

Definition attachment_key (j : nat) (what : string) : string :=
  "Attachment " +:+ str_nat j +:+ what.

Definition attachment_entries (atts : list attachment_t) : dict :=
  flat_map (fun ja => [(attachment_key ja.1 " File Name", fileName ja.2);
                       (attachment_key ja.1 " File Size", sizeName ja.2);
                       (attachment_key ja.1 " URL", url ja.2)])
    (enumerate 0 atts).

Definition type_entries (t : string) (it : item) : result dict :=
  if String.eqb t "login" then l ← require "login" (login it); Ok (login_entries l)
  else if String.eqb t "note" then Ok []
  else if String.eqb t "card" then c ← require "card" (card it); Ok (card_entries c)
  else if String.eqb t "identity" then i ← require "identity" (identity it); Ok (identity_entries i)
  else Ok [].

(** The tail every item shares after its type-specific entries. *)
Definition tail_entries (it : item) : dict :=
  (custom_entries (get_list (fields it)) ++ attachment_entries (get_list (attachments it))
   ++ [("Notes", notes it)])%list.

(* ------------------------------------------------------------------ *)
(** ** Lemmas: strings and decimal numerals *)

(* From here on [++] is list concatenation; strings use [+:+]. *)
Open Scope list_scope.

Definition is_digit (c : ascii) : bool :=
  Nat.leb 48 (nat_of_ascii c) && Nat.leb (nat_of_ascii c) 57.

Fixpoint all_digits (s : string) : bool :=
  match s with EmptyString => true | String c r => is_digit c && all_digits r end.

Definition starts_non_digit (s : string) : bool :=
  match s with EmptyString => true | String c _ => negb (is_digit c) end.

Lemma string_of_uint_digits d : all_digits (string_of_uint d) = true.
Proof. induction d; simpl; rewrite ?IHd; reflexivity. Qed.

Lemma string_of_uint_inj d d' : string_of_uint d = string_of_uint d' -> d = d'.
Proof.
  revert d'; induction d; intros [] H; simpl in H; try discriminate;
    try reflexivity; injection H as H; f_equal; auto.
Qed.

Lemma str_nat_inj n m : str_nat n = str_nat m -> n = m.
Proof.
  unfold str_nat. intros H. apply string_of_uint_inj in H.
  now apply DecimalNat.Unsigned.to_uint_inj.
Qed.

Lemma digits_split a b s t :
  all_digits a = true -> all_digits b = true ->
  starts_non_digit s = true -> starts_non_digit t = true ->
  a +:+ s = b +:+ t -> a = b /\ s = t.
Proof.
  revert b. induction a as [|c a IH]; intros [|c' b] Ha Hb Hs Ht H; simpl in *.
  - auto.
  - subst s. simpl in Hs. apply andb_true_iff in Hb as [Hb _]. rewrite Hb in Hs. discriminate.
  - subst t. simpl in Ht. apply andb_true_iff in Ha as [Ha _]. rewrite Ha in Ht. discriminate.
  - apply andb_true_iff in Ha as [_ Ha]. apply andb_true_iff in Hb as [_ Hb].
    injection H as -> H. destruct (IH b Ha Hb Hs Ht H) as [-> ->]. auto.
Qed.

Lemma append_cancel_l p s t : p +:+ s = p +:+ t -> s = t.
Proof. induction p; simpl; intros H; [exact H | injection H; auto]. Qed.

Lemma append_assoc_str a b c : (a +:+ b) +:+ c = a +:+ (b +:+ c).
Proof. induction a; simpl; congruence. Qed.

Lemma str_nat_cancel n m s t :
  starts_non_digit s = true -> starts_non_digit t = true ->
  str_nat n +:+ s = str_nat m +:+ t -> n = m /\ s = t.
Proof.
  intros Hs Ht H. apply digits_split in H as [H1 H2];
    try apply string_of_uint_digits; auto.
  split; [apply str_nat_inj|]; auto.
Qed.

Lemma custom_key_inj i j f g : custom_key i f = custom_key j g -> i = j.
Proof.
  unfold custom_key. intros H.
  apply append_cancel_l in H.
  apply str_nat_cancel in H as [H _]; [lia|reflexivity|reflexivity].
Qed.

Lemma attachment_key_inj i j w w' :
  starts_non_digit w = true -> starts_non_digit w' = true ->
  attachment_key i w = attachment_key j w' -> i = j /\ w = w'.
Proof.
  unfold attachment_key. intros Hw Hw' H.
  apply append_cancel_l in H.
  now apply str_nat_cancel in H.
Qed.

Lemma url_key_inj i j : "URL " +:+ str_nat i = "URL " +:+ str_nat j -> i = j.
Proof.
  intros H. apply append_cancel_l in H. now apply str_nat_inj.
Qed.

(* ------------------------------------------------------------------ *)
(** ** Lemmas: dictionaries *)

Definition keys (d : dict) : list string := map fst d.

Lemma dset_fresh d k v : ~ In k (keys d) -> dset d k v = (d ++ [(k, v)])%list.
Proof.
  induction d as [|[k' v'] d IH]; simpl; intros Hk; [reflexivity|].
  destruct (String.eqb_spec k k') as [->|Hne]; [tauto|].
  rewrite IH; tauto.
Qed.

Lemma dupdate_app d l1 l2 : dupdate d (l1 ++ l2) = dupdate (dupdate d l1) l2.
Proof. unfold dupdate. apply fold_left_app. Qed.

Lemma dupdate_fresh d l : NoDup (keys d ++ keys l) -> dupdate d l = (d ++ l)%list.
Proof.
  revert d; induction l as [|kv l IH]; intros d Hnd; simpl.
  - now rewrite app_nil_r.
  - unfold dupdate. simpl. fold (dupdate (dset d kv.1 kv.2) l).
    unfold keys in Hnd. rewrite map_cons in Hnd.
    rewrite dset_fresh.
    + rewrite IH, <- app_assoc; [destruct kv; reflexivity|].
      unfold keys. rewrite map_app, <- app_assoc. exact Hnd.
    + intros Hin. apply NoDup_app in Hnd as [_ [Hd _]].
      apply (Hd kv.1); [now apply list_elem_of_In | apply list_elem_of_In; now left].
Qed.

Lemma NoDup_app_In (l1 l2 : list string) :
  NoDup l1 -> NoDup l2 -> (forall x, In x l1 -> In x l2 -> False) -> NoDup (l1 ++ l2).
Proof.
  intros H1 H2 H. apply NoDup_app. split; [exact H1|split; [|exact H2]].
  intros x Hx1 Hx2. rewrite list_elem_of_In in Hx1, Hx2. eauto.
Qed.

Lemma enumerate_ge {A} k (l : list A) j x : In (j, x) (enumerate k l) -> k <= j.
Proof.
  revert k; induction l as [|y l IH]; simpl; intros k H; [contradiction|].
  destruct H as [H|H]; [injection H as <- _; lia|]. apply IH in H. lia.
Qed.

Lemma enumerate_nth {A} k (l : list A) i x :
  nth_error l i = Some x -> In (k + i, x) (enumerate k l).
Proof.
  revert k i; induction l as [|y l IH]; intros k [|i] H; simpl in *; try discriminate.
  - injection H as ->. left. f_equal. lia.
  - right. replace (k + S i) with (S k + i) by lia. now apply IH.
Qed.

Lemma keys_flat_map {A} (h : A -> dict) l :
  keys (flat_map h l) = flat_map (fun x => keys (h x)) l.
Proof. unfold keys. induction l; simpl; rewrite ?map_app; congruence. Qed.

(** Entries generated per list position with keys that determine the
    position have distinct keys. *)
Lemma NoDup_keys_enumerate {A} (h : nat * A -> dict) :
  (forall jx, NoDup (keys (h jx))) ->
  (forall i j x y k, In k (keys (h (i, x))) -> In k (keys (h (j, y))) -> i = j) ->
  forall k l, NoDup (keys (flat_map h (enumerate k l))).
Proof.
  intros Hone Hpos k l. revert k. induction l as [|x l IH]; intros k; simpl.
  - constructor.
  - unfold keys at 1. rewrite map_app. apply NoDup_app_In; [apply Hone|apply IH|].
    intros key Hin1 Hin2. rewrite keys_flat_map in Hin2.
    apply in_flat_map in Hin2 as [[j y] [Hjy Hin2]].
    pose proof (enumerate_ge _ _ _ _ Hjy). pose proof (Hpos k j x y key Hin1 Hin2). lia.
Qed.

Lemma map_as_flat_map {A B} (g : A -> B) l : map g l = flat_map (fun x => [g x]) l.
Proof. induction l; simpl; congruence. Qed.

Definition head_char (s : string) : option ascii :=
  match s with EmptyString => None | String c _ => Some c end.

Lemma head_char_app c s t : head_char (String c s +:+ t) = Some c.
Proof. reflexivity. Qed.

(* ------------------------------------------------------------------ *)
(** ** Lemmas: the loops of [BWItem.format] assign the entry lists *)

Lemma dupdate_map d (g : nat * uri_t -> string * pystr) l :
  fold_left (fun d x => dset d (g x).1 (g x).2) l d = dupdate d (map g l).
Proof. revert d; induction l; simpl; auto. Qed.

Lemma format_login_entries l : format_login l = dupdate [] (login_entries l).
Proof.
  unfold format_login, login_entries, url_entries.
  destruct (get_list (uris l)) as [|u [|u' us]]; try reflexivity.
  simpl Nat.eqb. cbv iota. unfold dupdate at 1. rewrite fold_left_app.
  rewrite (dupdate_map _ (fun iu => ("URL " +:+ str_nat (iu.1 + 1), uri iu.2))).
  reflexivity.
Qed.

Lemma add_custom_fields_entries d fs :
  add_custom_fields d fs = dupdate d (custom_entries fs).
Proof.
  unfold add_custom_fields, custom_entries, dupdate.
  generalize (enumerate 0 fs) as L. intros L. revert d; induction L; simpl; auto.
Qed.

Lemma add_attachments_entries d atts :
  add_attachments d atts = dupdate d (attachment_entries atts).
Proof.
  unfold add_attachments, attachment_entries.
  generalize (enumerate 0 atts) as L. intros L. revert d.
  induction L as [|ja L IH]; intros d; [reflexivity|].
  simpl. rewrite IH. reflexivity.
Qed.

(* ------------------------------------------------------------------ *)
(** ** Lemmas: the keys [BWItem.format] assigns are distinct *)

Lemma url_keys_shape us k :
  In k (keys (url_entries us)) -> k = "URL" \/ exists n, k = "URL " +:+ str_nat n.
Proof.
  unfold url_entries. destruct us as [|u [|u' us]].
  - simpl. tauto.
  - simpl. intros [<-|[]]. now left.
  - unfold keys. rewrite map_map. intros Hin. apply in_map_iff in Hin as [[j x] [<- _]].
    right. eauto.
Qed.

Lemma NoDup_keys_url us : NoDup (keys (url_entries us)).
Proof.
  unfold url_entries. destruct us as [|u [|u' us]].
  - constructor.
  - repeat constructor. intros H. inversion H.
  - rewrite map_as_flat_map. apply NoDup_keys_enumerate.
    + intros jx. repeat constructor. intros H. inversion H.
    + simpl. intros i j x y k [<-|[]] [H|[]]. apply url_key_inj in H. lia.
Qed.

Lemma NoDup_keys_login l : NoDup (keys (login_entries l)).
Proof.
  unfold login_entries, keys. rewrite map_app. apply NoDup_app_In.
  - apply (bool_decide_unpack _). vm_compute. reflexivity.
  - apply NoDup_keys_url.
  - intros x Hx Hurl. apply url_keys_shape in Hurl as [->|[n ->]];
      simpl in Hx; destruct Hx as [Hx|[Hx|[Hx|[]]]]; discriminate.
Qed.

Lemma NoDup_keys_custom fs : NoDup (keys (custom_entries fs)).
Proof.
  unfold custom_entries. rewrite map_as_flat_map. apply NoDup_keys_enumerate.
  - intros jx. repeat constructor. intros H. inversion H.
  - simpl. intros i j x y k [<-|[]] [H|[]]. now apply custom_key_inj in H.
Qed.

Lemma NoDup3 (x y z : string) : x <> y -> x <> z -> y <> z -> NoDup [x; y; z].
Proof.
  intros. repeat constructor; rewrite ?list_elem_of_In; simpl; intuition congruence.
Qed.

Lemma NoDup_keys_attachments atts : NoDup (keys (attachment_entries atts)).
Proof.
  unfold attachment_entries. apply NoDup_keys_enumerate.
  - intros [j a]. cbn [keys map fst]. apply NoDup3; intros H;
      apply attachment_key_inj in H as [_ H]; try reflexivity; discriminate.
  - simpl. intros i j x y k Hi Hj.
    destruct Hi as [<-|[<-|[<-|[]]]]; destruct Hj as [H|[H|[H|[]]]];
      apply attachment_key_inj in H as [H _]; auto.
Qed.

Lemma custom_keys_head fs k : In k (keys (custom_entries fs)) -> head_char k = Some "["%char.
Proof.
  unfold custom_entries, keys. rewrite map_map. intros Hin.
  apply in_map_iff in Hin as [[j x] [<- _]]. reflexivity.
Qed.

Lemma attachment_keys_head atts k :
  In k (keys (attachment_entries atts)) -> head_char k = Some "A"%char.
Proof.
  unfold attachment_entries. rewrite keys_flat_map. intros Hin.
  apply in_flat_map in Hin as [[j x] [_ Hin]].
  simpl in Hin. destruct Hin as [<-|[<-|[<-|[]]]]; reflexivity.
Qed.

Definition type_head (c : ascii) : bool :=
  (c =? "U")%char || (c =? "P")%char || (c =? "T")%char || (c =? "C")%char || (c =? "I")%char.

Lemma type_keys_head t it te k :
  type_entries t it = Ok te -> In k (keys te) ->
  exists c, head_char k = Some c /\ type_head c = true.
Proof.
  unfold type_entries.
  destruct (String.eqb t "login"); [|destruct (String.eqb t "note"); [|destruct (String.eqb t "card");
    [|destruct (String.eqb t "identity")]]].
  - destruct (login it) as [l|]; simpl; intros H; inversion H; subst; clear H.
    unfold login_entries, keys. rewrite map_app. intros Hk. apply in_app_or in Hk as [Hk|Hk].
    + simpl in Hk. destruct Hk as [<-|[<-|[<-|[]]]]; eexists; split; reflexivity.
    + apply url_keys_shape in Hk as [->|[n ->]]; eexists; split; reflexivity.
  - intros H; inversion H; subst; simpl; tauto.
  - destruct (card it) as [c|]; simpl; intros H; inversion H; subst; clear H.
    simpl. intros Hk; repeat (destruct Hk as [<-|Hk]; [eexists; split; reflexivity|]); destruct Hk.
  - destruct (identity it) as [i|]; simpl; intros H; inversion H; subst; clear H.
    simpl. intros Hk; repeat (destruct Hk as [<-|Hk]; [eexists; split; reflexivity|]); destruct Hk.
  - intros H; inversion H; subst; simpl; tauto.
Qed.

Lemma NoDup_keys_type t it te : type_entries t it = Ok te -> NoDup (keys te).
Proof.
  unfold type_entries.
  destruct (String.eqb t "login"); [|destruct (String.eqb t "note"); [|destruct (String.eqb t "card");
    [|destruct (String.eqb t "identity")]]].
  - destruct (login it) as [l|]; simpl; intros H; inversion H; subst. apply NoDup_keys_login.
  - intros H; inversion H; subst; constructor.
  - destruct (card it) as [c|]; simpl; intros H; inversion H; subst.
    apply (bool_decide_unpack _). vm_compute. reflexivity.
  - destruct (identity it) as [i|]; simpl; intros H; inversion H; subst.
    apply (bool_decide_unpack _). vm_compute. reflexivity.
  - intros H; inversion H; subst; constructor.
Qed.

Lemma NoDup_keys_all it t te :
  type_entries t it = Ok te ->
  NoDup (keys ((("Name", Some (name it)) :: te) ++ tail_entries it)).
Proof.
  intros Hte. unfold tail_entries, keys. rewrite !map_app, map_cons.
  pose proof (fun k => type_keys_head t it te k Hte) as Ht.
  pose proof (custom_keys_head (get_list (fields it))) as Hc.
  pose proof (attachment_keys_head (get_list (attachments it))) as Ha.
  fold (keys te) (keys (custom_entries (get_list (fields it))))
    (keys (attachment_entries (get_list (attachments it)))) in *.
  constructor.
  - rewrite list_elem_of_In. intros Hin.
    repeat (apply in_app_or in Hin as [Hin|Hin]).
    + destruct (Ht _ Hin) as [c [Hc' Hh]]. simpl in Hc'. injection Hc' as <-. discriminate.
    + specialize (Hc _ Hin). discriminate.
    + specialize (Ha _ Hin). discriminate.
    + simpl in Hin. destruct Hin as [Hin|[]]. discriminate.
  - apply NoDup_app_In; [eapply NoDup_keys_type; eauto| |].
    + apply NoDup_app_In; [apply NoDup_keys_custom| |].
      * apply NoDup_app_In; [apply NoDup_keys_attachments|repeat constructor; intros H; inversion H|].
        intros x Hx [<-|[]]. specialize (Ha _ Hx). discriminate.
      * intros x Hx Hin. specialize (Hc _ Hx). apply in_app_or in Hin as [Hin|[<-|[]]].
        -- specialize (Ha _ Hin). congruence.
        -- discriminate.
    + intros x Hx Hin. destruct (Ht _ Hx) as [c [Hc' Hh]].
      repeat (apply in_app_or in Hin as [Hin|Hin]).
      * specialize (Hc _ Hin). rewrite Hc in Hc'. injection Hc' as <-. discriminate.
      * specialize (Ha _ Hin). rewrite Ha in Hc'. injection Hc' as <-. discriminate.
      * destruct Hin as [<-|[]]. simpl in Hc'. injection Hc' as <-. discriminate.
Qed.

Lemma add_type_fields_entries d t it :
  add_type_fields d t it = (te ← type_entries t it; Ok (dupdate d te)).
Proof.
  unfold add_type_fields, type_entries.
  destruct (String.eqb t "login"); [|destruct (String.eqb t "note"); [|destruct (String.eqb t "card");
    [|destruct (String.eqb t "identity")]]]; try reflexivity.
  - destruct (login it) as [l|]; [|reflexivity]. simpl. rewrite format_login_entries.
    rewrite (dupdate_fresh [] (login_entries l)); [reflexivity|apply NoDup_keys_login].
  - destruct (card it) as [c|]; reflexivity.
  - destruct (identity it) as [i|]; reflexivity.
Qed.

(** The dictionary of [BWItem.format]: the name, the type-specific
    entries and the shared tail, in this order, with no key assigned
    twice. *)
Lemma format_dict_entries it :
  format_dict it =
    (t ← item_type it; te ← type_entries t it;
     Ok ((("Name", Some (name it)) :: te) ++ tail_entries it)).
Proof.
  unfold format_dict. destruct (item_type it) as [t|e]; simpl; [|reflexivity].
  rewrite add_type_fields_entries.
  destruct (type_entries t it) as [te|e] eqn:Hte; simpl; [|reflexivity].
  rewrite add_custom_fields_entries, add_attachments_entries.
  pose proof (NoDup_keys_all it t te Hte) as Hnd.
  transitivity (Ok (dupdate [("Name", Some (name it))] (te ++ tail_entries it)) : result dict).
  - unfold tail_entries. rewrite !dupdate_app. reflexivity.
  - rewrite dupdate_fresh by exact Hnd. reflexivity.
Qed.

(* ------------------------------------------------------------------ *)
(** ** Lemmas: emitted entries and lines *)

Lemma emitted_app d1 d2 : emitted (d1 ++ d2) = emitted d1 ++ emitted d2.
Proof. induction d1 as [|[k [v|]] d1 IH]; simpl; congruence. Qed.

Lemma emitted_In d k v : In (k, v) (emitted d) <-> In (k, Some v) d.
Proof.
  induction d as [|[k' [v'|]] d IH]; simpl; [tauto| |].
  - rewrite IH. split; intros [H|H]; auto; left; congruence.
  - rewrite IH. split; [auto|]. intros [H|H]; [discriminate|auto].
Qed.

Lemma NoDup_keys_value d k a b :
  NoDup (keys d) -> In (k, a) d -> In (k, b) d -> a = b.
Proof.
  induction d as [|[k' v'] d IH]; simpl; [tauto|].
  intros Hnd. apply NoDup_cons in Hnd as [Hk Hnd].
  intros [Ha|Ha] [Hb|Hb]; try congruence; auto.
  - injection Ha as -> ->. exfalso. apply Hk, list_elem_of_In, (in_map fst _ (k, b) Hb).
  - injection Hb as -> ->. exfalso. apply Hk, list_elem_of_In, (in_map fst _ (k, a) Ha).
Qed.

Lemma format_dict_shape it d :
  format_dict it = Ok d ->
  exists t te, item_type it = Ok t /\ type_entries t it = Ok te /\
    d = (("Name", Some (name it)) :: te) ++ tail_entries it.
Proof.
  rewrite format_dict_entries.
  destruct (item_type it) as [t|e]; simpl; [|discriminate].
  destruct (type_entries t it) as [te|e] eqn:Hte; simpl; [|discriminate].
  intros H. injection H as <-. eauto.
Qed.

Lemma format_dict_nodup it d : format_dict it = Ok d -> NoDup (keys d).
Proof.
  intros H. apply format_dict_shape in H as (t & te & _ & Hte & ->).
  eapply NoDup_keys_all; eauto.
Qed.

Definition url_line (s : string) : bool := String.prefix "URL" s.

Lemma prefix_app p s : String.prefix p (p +:+ s) = true.
Proof.
  induction p as [|c p IH]; simpl; [destruct s; reflexivity|].
  destruct (ascii_dec c c); [exact IH|contradiction].
Qed.

Lemma url_line_other k s c :
  head_char k = Some c -> c <> "U"%char -> url_line (k +:+ s) = false.
Proof.
  destruct k as [|c' k]; simpl; [discriminate|]. intros H Hc. injection H as ->.
  unfold url_line. cbn [String.prefix String.append]. destruct (ascii_dec "U" c); congruence.
Qed.

Lemma url_line_url_key us k s : In k (keys (url_entries us)) -> url_line (k +:+ s) = true.
Proof.
  intros Hk. apply url_keys_shape in Hk as [->|[n ->]]; [apply prefix_app|].
  reflexivity.
Qed.

Lemma render_pair k v : render (k, v) = k +:+ (": " +:+ v).
Proof. reflexivity. Qed.

Lemma url_filter_none e :
  (forall k, In k (keys e) -> forall s, url_line (k +:+ s) = false) ->
  List.filter url_line (map render (emitted e)) = [].
Proof.
  induction e as [|[k [v|]] e IH]; cbn [map emitted List.filter]; intros H; [reflexivity| |].
  - rewrite render_pair, (H k (or_introl eq_refl)).
    apply IH. intros k' Hk'. apply H. now right.
  - apply IH. intros k' Hk'. apply H. now right.
Qed.

Lemma url_filter_all e :
  (forall k, In k (keys e) -> forall s, url_line (k +:+ s) = true) ->
  List.filter url_line (map render (emitted e)) = map render (emitted e).
Proof.
  induction e as [|[k [v|]] e IH]; cbn [map emitted List.filter]; intros H; [reflexivity| |].
  - rewrite render_pair, (H k (or_introl eq_refl)), <- render_pair. f_equal.
    apply IH. intros k' Hk'. apply H. now right.
  - apply IH. intros k' Hk'. apply H. now right.
Qed.

Lemma tail_no_url_lines it :
  List.filter url_line (map render (emitted (tail_entries it))) = [].
Proof.
  apply url_filter_none. intros k Hk s. unfold tail_entries, keys in Hk.
  rewrite !map_app in Hk. apply in_app_or in Hk as [Hk|Hk].
  - apply (url_line_other _ _ "["%char); [eapply custom_keys_head; exact Hk|discriminate].
  - apply in_app_or in Hk as [Hk|Hk].
    + apply (url_line_other _ _ "A"%char); [eapply attachment_keys_head; exact Hk|discriminate].
    + destruct Hk as [<-|[]]. reflexivity.
Qed.

Lemma type_entries_login it l :
  login it = Some l -> type_entries "login" it = Ok (login_entries l).
Proof. intros H. unfold type_entries. rewrite H. reflexivity. Qed.

Lemma login_format_lines it l ls :
  type it = 1%Z -> login it = Some l -> format_lines it = Ok ls ->
  List.filter url_line ls = map render (emitted (url_entries (get_list (uris l)))).
Proof.
  intros Ht Hl H. unfold format_lines in H.
  destruct (format_dict it) as [d|] eqn:Hd; [|discriminate]. injection H as <-.
  apply format_dict_shape in Hd as (t & te & Hit & Hte & ->).
  unfold item_type in Hit. rewrite Ht in Hit. injection Hit as <-.
  rewrite (type_entries_login it l Hl) in Hte. injection Hte as <-.
  replace ((("Name", Some (name it)) :: login_entries l) ++ tail_entries it)
    with ([("Name", Some (name it)); ("Username", username l); ("Password", password l);
           ("TOTP", totp l)] ++ url_entries (get_list (uris l)) ++ tail_entries it)
    by reflexivity.
  rewrite !emitted_app, !map_app, !List.filter_app.
  rewrite tail_no_url_lines, app_nil_r.
  rewrite (url_filter_all (url_entries _)) by (intros k Hk s; eapply url_line_url_key; eauto).
  rewrite url_filter_none; [reflexivity|].
  intros k Hk s. simpl in Hk. destruct Hk as [<-|[<-|[<-|[<-|[]]]]]; reflexivity.
Qed.

Lemma render_emitted_enumerate (key : nat -> string) (L : list (nat * uri_t)) :
  map render (emitted (map (fun iu => (key iu.1, uri iu.2)) L)) =
  omap (fun iu => option_map (fun v => key iu.1 +:+ ": " +:+ v) (uri iu.2)) L.
Proof.
  induction L as [|[j u] L IH]; [reflexivity|]. simpl.
  destruct (uri u); simpl; [f_equal|]; exact IH.
Qed.

Lemma type_entries_other it t :
  t <> "login" -> t <> "note" -> t <> "card" -> t <> "identity" -> type_entries t it = Ok [].
Proof.
  intros H1 H2 H3 H4. unfold type_entries.
  apply String.eqb_neq in H1, H2, H3, H4. now rewrite H1, H2, H3, H4.
Qed.

(* ------------------------------------------------------------------ *)
(** ** Sample items *)

Definition no_login : login_t :=
  {| username := None; password := None; totp := None; uris := None |}.

Definition sample_item (t : Z) : item :=
  {| id := "abc12345-6789-4abc-9def-0123456789ab"; name := "My Bank"; type := t;
     login := None; card := None; identity := None;
     fields := None; attachments := None; notes := None |}.

(** A login with two URIs, a null custom field before a set one, one
    attachment and notes. *)
Definition sample_login : item :=
  {| id := "abc12345-6789-4abc-9def-0123456789ab"; name := "My Bank"; type := 1;
     login := Some {| username := Some "me"; password := Some "pw"; totp := None;
                      uris := Some [{| uri := Some "https://bank.example" |};
                                    {| uri := Some "https://m.bank.example" |}] |};
     card := None; identity := None;
     fields := Some [{| field_name := Some "pin"; field_value := None |};
                     {| field_name := Some "branch"; field_value := Some "north" |}];
     attachments := Some [{| fileName := Some "card.png"; sizeName := Some "1 KB";
                             url := Some "https://files.example/1" |}];
     notes := Some "savings" |}.

(** A login with one URI whose value is null. *)
Definition login_null_uri : item :=
  {| id := "0f0f0f0f"; name := "Site"; type := 1;
     login := Some {| username := None; password := None; totp := None;
                      uris := Some [{| uri := None |}] |};
     card := None; identity := None; fields := None; attachments := None; notes := None |}.

(** A secure note with one attachment and null notes. *)
Definition note_with_attachment : item :=
  {| id := "1234abcd"; name := "Scan"; type := 2;
     login := None; card := None; identity := None; fields := None;
     attachments := Some [{| fileName := Some "scan.pdf"; sizeName := Some "2 MB";
                             url := Some "https://files.example/2" |}];
     notes := None |}.

(* ------------------------------------------------------------------ *)
(** ** The item formatter *)

(** C2 (amended): for a login item, the lines labelled [URL] or [URL N]
    are: with exactly one URI, the line [URL: v] when its value [v] is
    non-null and none otherwise; with N > 1 URIs, one line [URL i: v]
    per URI with a non-null value, [i] its 1-based position, in input
    order. *)
Theorem login_url_labels it l ls :
  type it = 1%Z -> login it = Some l -> format_lines it = Ok ls ->
  (forall u, get_list (uris l) = [u] ->
     List.filter url_line ls = match uri u with Some v => ["URL: " +:+ v] | None => [] end) /\
  (1 < length (get_list (uris l)) ->
     List.filter url_line ls =
       omap (fun iu => option_map (fun v => ("URL " +:+ str_nat (iu.1 + 1)) +:+ ": " +:+ v) (uri iu.2))
         (enumerate 0 (get_list (uris l)))).
Proof.
  intros Ht Hl Hls. rewrite (login_format_lines it l ls Ht Hl Hls). split.
  - intros u ->. simpl. destruct (uri u); reflexivity.
  - destruct (get_list (uris l)) as [|u [|u' us]]; simpl length; intros Hlen; try lia.
    apply (render_emitted_enumerate (fun j => "URL " +:+ str_nat (j + 1))).
Qed.

Definition sample_login_lines : list string :=
  ["Name: My Bank"; "Username: me"; "Password: pw"; "URL 1: https://bank.example";
   "URL 2: https://m.bank.example"; "[Custom Field 2] branch: north";
   "Attachment 0 File Name: card.png"; "Attachment 0 File Size: 1 KB";
   "Attachment 0 URL: https://files.example/1"; "Notes: savings"].

Lemma sample_login_format_lines : format_lines sample_login = Ok sample_login_lines.
Proof. vm_compute. reflexivity. Qed.

Lemma login_url_labels_witness :
  List.filter url_line sample_login_lines
  = ["URL 1: https://bank.example"; "URL 2: https://m.bank.example"].
Proof.
  destruct (login_url_labels sample_login _ sample_login_lines eq_refl eq_refl
              sample_login_format_lines) as [_ H].
  rewrite H by (simpl; lia). reflexivity.
Defined.

(** C2 counterexample: a login whose single URI has a null value gets
    no [URL] line. *)
Lemma login_null_uri_no_url_line :
  format_lines login_null_uri = Ok ["Name: Site"] /\
  ~ (exists v, In ("URL: " +:+ v) ["Name: Site"]).
Proof.
  split; [reflexivity|]. intros [v [H|[]]]. discriminate.
Qed.

(** C3: in the dictionary of a formatted item, a field whose value is
    null has no line: no emitted entry carries its label, and the lines
    of the body are the emitted entries. *)
Theorem null_field_no_line it d k :
  format_dict it = Ok d -> In (k, None) d ->
  ~ In k (map fst (emitted d)) /\ format_lines it = Ok (map render (emitted d)).
Proof.
  intros Hd Hk. split.
  - intros Hin. apply in_map_iff in Hin as [[k' v] [Hk' Hin]]. simpl in Hk'. subst k'.
    apply emitted_In in Hin.
    pose proof (NoDup_keys_value d k None (Some v) (format_dict_nodup it d Hd) Hk Hin).
    discriminate.
  - unfold format_lines. rewrite Hd. reflexivity.
Qed.

Lemma null_field_no_line_witness :
  ~ In "TOTP" (map fst (emitted
      [("Name", Some "My Bank"); ("Username", Some "me"); ("Password", Some "pw");
       ("TOTP", None); ("URL 1", Some "https://bank.example");
       ("URL 2", Some "https://m.bank.example");
       ("[Custom Field 1] pin", None); ("[Custom Field 2] branch", Some "north");
       ("Attachment 0 File Name", Some "card.png"); ("Attachment 0 File Size", Some "1 KB");
       ("Attachment 0 URL", Some "https://files.example/1"); ("Notes", Some "savings")])).
Proof.
  refine (proj1 (null_field_no_line sample_login _ "TOTP" _ _)).
  - vm_compute. reflexivity.
  - simpl. tauto.
Defined.

(** C4: [BWItem.format] dispatches on the type code: 1 to the login
    fields, 2 to none, 3 to the card fields, 4 to the identity fields;
    any other code [t] raises the unknown-type error, so neither a body
    nor an entry name is produced. *)
Theorem item_type_dispatch it :
  (forall t, type it = t -> t <> 1%Z -> t <> 2%Z -> t <> 3%Z -> t <> 4%Z ->
     item_type it = Err (UnknownItemType t) /\ format it = Err (UnknownItemType t) /\
     passname it = Err (UnknownItemType t)) /\
  (type it = 1%Z -> format_dict it =
     (l ← require "login" (login it);
      Ok ((("Name", Some (name it)) :: login_entries l) ++ tail_entries it))) /\
  (type it = 2%Z -> format_dict it = Ok (("Name", Some (name it)) :: tail_entries it)) /\
  (type it = 3%Z -> format_dict it =
     (c ← require "card" (card it);
      Ok ((("Name", Some (name it)) :: card_entries c) ++ tail_entries it))) /\
  (type it = 4%Z -> format_dict it =
     (i ← require "identity" (identity it);
      Ok ((("Name", Some (name it)) :: identity_entries i) ++ tail_entries it))).
Proof.
  split.
  { intros t Ht H1 H2 H3 H4. subst t.
    assert (Hty : item_type it = Err (UnknownItemType (type it))).
    { unfold item_type. apply Z.eqb_neq in H1, H2, H3, H4. now rewrite H1, H2, H3, H4. }
    unfold format, format_lines, passname. rewrite format_dict_entries, Hty. auto. }
  rewrite format_dict_entries. unfold item_type.
  split; [|split; [|split]]; intros Ht; rewrite Ht; simpl Z.eqb; cbv iota.
  - unfold type_entries. destruct (login it); reflexivity.
  - reflexivity.
  - unfold type_entries. destruct (card it); reflexivity.
  - unfold type_entries. destruct (identity it); reflexivity.
Qed.

Lemma item_type_dispatch_witness :
  format (sample_item 5) = Err (UnknownItemType 5) /\
  format_dict (sample_item 2) = Ok [("Name", Some "My Bank"); ("Notes", None)].
Proof.
  destruct (item_type_dispatch (sample_item 5)) as [H5 _].
  destruct (item_type_dispatch (sample_item 2)) as [_ [_ [H2 _]]].
  split.
  - apply (H5 5%Z); [reflexivity|lia|lia|lia|lia].
  - rewrite H2 by reflexivity. reflexivity.
Defined.

Definition nl : string := String "010" "".

Lemma In_render_emitted d k v :
  In (k, Some v) d -> In (k +:+ ": " +:+ v) (map render (emitted d)).
Proof.
  intros H. apply emitted_In in H. apply (in_map render) in H. exact H.
Qed.

(** C5 (amended): the body of a formatted item consists of the [Name]
    line, the type-specific lines, the custom-field lines labelled
    [[Custom Field N] <name>] with [N] the 1-based position of the field
    in its list, for each attachment in input order its [File Name],
    [File Size] and [URL] lines (under some attachment number), and a
    [Notes] line when the notes are non-null; only entries with a
    non-null value give a line, and the body ends with a newline. *)
Theorem body_layout it d :
  format_dict it = Ok d ->
  exists t te (idx : nat -> string) ls,
    item_type it = Ok t /\ type_entries t it = Ok te /\
    format_lines it = Ok ls /\
    ls = map render (emitted (("Name", Some (name it)) :: te))
         ++ map render (emitted (map (fun jf =>
              ("[Custom Field " +:+ str_nat (jf.1 + 1) +:+ "] " +:+ py_str (field_name jf.2),
               field_value jf.2)) (enumerate 0 (get_list (fields it)))))
         ++ map render (emitted (flat_map (fun ja =>
              [("Attachment " +:+ idx ja.1 +:+ " File Name", fileName ja.2);
               ("Attachment " +:+ idx ja.1 +:+ " File Size", sizeName ja.2);
               ("Attachment " +:+ idx ja.1 +:+ " URL", url ja.2)])
              (enumerate 0 (get_list (attachments it)))))
         ++ match notes it with Some v => ["Notes: " +:+ v] | None => [] end /\
    format it = Ok (String.concat nl ls +:+ nl).
Proof.
  intros Hd. pose proof Hd as Hd'.
  apply format_dict_shape in Hd as (t & te & Hit & Hte & ->).
  exists t, te, str_nat, (map render (emitted ((("Name", Some (name it)) :: te) ++ tail_entries it))).
  unfold format, format_lines. rewrite Hd'.
  split; [exact Hit|split; [exact Hte|split; [reflexivity|split; [|reflexivity]]]].
  unfold tail_entries.
  rewrite !emitted_app, !map_app. f_equal. f_equal. f_equal.
  destruct (notes it); reflexivity.
Qed.

Lemma body_layout_witness :
  exists pre atts,
    sample_login_lines = pre ++ ["[Custom Field 2] branch: north"] ++ atts ++ ["Notes: savings"] /\
    length atts = 3 /\
    format sample_login = Ok (String.concat nl sample_login_lines +:+ nl).
Proof.
  destruct (body_layout sample_login _ eq_refl)
    as (t & te & idx & ls & Ht & Hte & Hls & Heq & Hf).
  assert (E : ls = sample_login_lines).
  { rewrite sample_login_format_lines in Hls. injection Hls as E. symmetry. exact E. }
  rewrite E in Heq, Hf. injection Ht as <-. injection Hte as <-.
  eexists _, _. split; [|split; [|exact Hf]].
  - rewrite Heq. reflexivity.
  - reflexivity.
Defined.

(** C5 counterexample: a note with one attachment and null notes; its
    attachment lines carry the number 0, and no [Notes] line ends the
    body. *)
Lemma attachment_numbered_from_zero :
  format_lines note_with_attachment =
    Ok ["Name: Scan"; "Attachment 0 File Name: scan.pdf"; "Attachment 0 File Size: 2 MB";
        "Attachment 0 URL: https://files.example/2"] /\
  ~ In "Attachment 1 File Name: scan.pdf"
      ["Name: Scan"; "Attachment 0 File Name: scan.pdf"; "Attachment 0 File Size: 2 MB";
       "Attachment 0 URL: https://files.example/2"].
Proof.
  split; [vm_compute; reflexivity|].
  simpl. intros H. repeat (destruct H as [H|H]; [discriminate|]). exact H.
Qed.

(** A login item without a 'uris' key. *)
Definition login_no_uris : item :=
  {| id := "77aa88bb-0000"; name := "Forum"; type := 1;
     login := Some {| username := Some "me"; password := None; totp := None; uris := None |};
     card := None; identity := None; fields := None; attachments := None; notes := None |}.

(** C9: a login item whose URI list is empty or absent gets no line
    labelled [URL] or [URL N]: no line of its body starts with "URL". *)
Theorem login_without_uris_no_url_lines it l ls :
  type it = 1%Z -> login it = Some l -> get_list (uris l) = [] -> format_lines it = Ok ls ->
  forall s, In s ls -> url_line s = false.
Proof.
  intros Ht Hl Hu Hls s Hs. pose proof (login_format_lines it l ls Ht Hl Hls) as H.
  rewrite Hu in H. simpl in H.
  destruct (url_line s) eqn:E; [|reflexivity].
  assert (Hin : In s (List.filter url_line ls)) by (apply filter_In; auto).
  rewrite H in Hin. destruct Hin.
Qed.

Lemma login_without_uris_no_url_lines_witness :
  url_line "Username: me" = false.
Proof.
  apply (login_without_uris_no_url_lines login_no_uris _ ["Name: Forum"; "Username: me"]
           eq_refl eq_refl eq_refl).
  - vm_compute. reflexivity.
  - simpl. tauto.
Defined.

(** C10: the number in a custom-field or attachment label comes from the
    element's index in its input list (custom fields: index + 1;
    attachments: the index itself), whatever the values of the other
    elements: a null field emits nothing but leaves its number unused. *)
Theorem labels_follow_list_position it ls :
  format_lines it = Ok ls ->
  (forall i f v, nth_error (get_list (fields it)) i = Some f -> field_value f = Some v ->
     In ("[Custom Field " +:+ str_nat (i + 1) +:+ "] " +:+ py_str (field_name f) +:+ ": " +:+ v) ls) /\
  (forall i a v, nth_error (get_list (attachments it)) i = Some a -> fileName a = Some v ->
     In ("Attachment " +:+ str_nat i +:+ " File Name: " +:+ v) ls) /\
  (forall i a v, nth_error (get_list (attachments it)) i = Some a -> sizeName a = Some v ->
     In ("Attachment " +:+ str_nat i +:+ " File Size: " +:+ v) ls) /\
  (forall i a v, nth_error (get_list (attachments it)) i = Some a -> url a = Some v ->
     In ("Attachment " +:+ str_nat i +:+ " URL: " +:+ v) ls).
Proof.
  unfold format_lines. destruct (format_dict it) as [d|] eqn:Hd; [|discriminate].
  intros H. injection H as <-.
  apply format_dict_shape in Hd as (t & te & _ & _ & ->).
  assert (Htail : forall k v, In (k, Some v) (tail_entries it) ->
            In (k +:+ ": " +:+ v)
              (map render (emitted ((("Name", Some (name it)) :: te) ++ tail_entries it)))).
  { intros k v Hk. apply In_render_emitted. apply in_or_app. now right. }
  split; [|split; [|split]].
  - intros i f v Hf Hv.
    assert (Hk := Htail (custom_key i f) v). unfold custom_key in Hk.
    rewrite !append_assoc_str in Hk. apply Hk.
    unfold tail_entries. apply in_or_app. left. unfold custom_entries.
    rewrite <- Hv. apply (in_map (fun jf => (custom_key jf.1 jf.2, field_value jf.2)) _ (i, f)).
    apply (enumerate_nth 0). exact Hf.
  - intros i a v Ha Hv.
    assert (Hk := Htail (attachment_key i " File Name") v). unfold attachment_key in Hk.
    rewrite !append_assoc_str in Hk. apply Hk.
    unfold tail_entries. apply in_or_app. right. apply in_or_app. left.
    unfold attachment_entries. apply in_flat_map. exists (i, a).
    split; [apply (enumerate_nth 0); exact Ha|]. simpl. left. now rewrite Hv.
  - intros i a v Ha Hv.
    assert (Hk := Htail (attachment_key i " File Size") v). unfold attachment_key in Hk.
    rewrite !append_assoc_str in Hk. apply Hk.
    unfold tail_entries. apply in_or_app. right. apply in_or_app. left.
    unfold attachment_entries. apply in_flat_map. exists (i, a).
    split; [apply (enumerate_nth 0); exact Ha|]. simpl. right. left. now rewrite Hv.
  - intros i a v Ha Hv.
    assert (Hk := Htail (attachment_key i " URL") v). unfold attachment_key in Hk.
    rewrite !append_assoc_str in Hk. apply Hk.
    unfold tail_entries. apply in_or_app. right. apply in_or_app. left.
    unfold attachment_entries. apply in_flat_map. exists (i, a).
    split; [apply (enumerate_nth 0); exact Ha|]. simpl. right. right. left. now rewrite Hv.
Qed.

(** The second custom field of [sample_login] keeps the number 2 though
    the first one, being null, emits no line. *)
Lemma labels_follow_list_position_witness :
  In "[Custom Field 2] branch: north" sample_login_lines.
Proof.
  destruct (labels_follow_list_position sample_login sample_login_lines
              sample_login_format_lines) as [H _].
  exact (H 1 {| field_name := Some "branch"; field_value := Some "north" |} "north"
           eq_refl eq_refl).
Defined.

(* ------------------------------------------------------------------ *)
(** ** The canonical entry name *)

(** The spec's reading of the name part, in its own order: lower-case
    the display name, turn each of '-', '_', '|' into a space, then
    replace every maximal run of spaces by one hyphen. *)
Definition is_separator (c : ascii) : bool :=
  (c =? "-")%char || (c =? "_")%char || (c =? "|")%char.

Fixpoint separators_to_spaces (s : string) : string :=
  match s with
  | EmptyString => EmptyString
  | String c r => String (if is_separator c then " "%char else c) (separators_to_spaces r)
  end.

Definition space_run (g : string) : bool :=
  match g with String c _ => (c =? " ")%char | EmptyString => false end.

(** The maximal runs of spaces of a string, each other character on its
    own. *)
Fixpoint runs (s : string) : list string :=
  match s with
  | EmptyString => []
  | String c r =>
      match runs r with
      | g :: gs => if (c =? " ")%char && space_run g then String c g :: gs
                   else String c "" :: g :: gs
      | [] => [String c ""]
      end
  end.

Definition collapse_runs (s : string) : string :=
  String.concat "" (map (fun g => if space_run g then "-" else g) (runs s)).

Definition spec_name_part (s : string) : string :=
  collapse_runs (separators_to_spaces (lower s)).

Definition type_label (t : Z) : option string :=
  match t with 1%Z => Some "login" | 2%Z => Some "note" | 3%Z => Some "card"
             | 4%Z => Some "identity" | _ => None end.

Lemma lower_char_space c : (lower_char c =? " ")%char = (c =? " ")%char.
Proof. destruct c as [[] [] [] [] [] [] [] []]; reflexivity. Qed.

Lemma lower_char_separator c : is_separator (lower_char c) = is_separator c.
Proof. destruct c as [[] [] [] [] [] [] [] []]; reflexivity. Qed.

Lemma lower_char_fixes_space : lower_char " " = " "%char.
Proof. reflexivity. Qed.

Lemma lower_char_fixes_hyphen : lower_char "-" = "-"%char.
Proof. reflexivity. Qed.

Lemma lower_sub_separators s : lower (sub_separators s) = separators_to_spaces (lower s).
Proof.
  induction s as [|c s IH]; [reflexivity|]. simpl. rewrite IH. f_equal.
  rewrite lower_char_separator. fold (is_separator c).
  destruct (is_separator c); [reflexivity|reflexivity].
Qed.

Lemma lower_sub_space_runs b s : lower (sub_space_runs_from b s) = sub_space_runs_from b (lower s).
Proof.
  revert b. induction s as [|c s IH]; intros b; [reflexivity|]. simpl.
  rewrite lower_char_space. destruct (c =? " ")%char, b; simpl; rewrite ?IH; reflexivity.
Qed.

Lemma concat_empty_cons x l : String.concat "" (x :: l) = x +:+ String.concat "" l.
Proof.
  destruct l; simpl; [|reflexivity].
  induction x as [|c x IH]; [reflexivity|]. simpl. rewrite <- IH. reflexivity.
Qed.

Definition drop_space_run (gs : list string) : list string :=
  match gs with g :: gs' => if space_run g then gs' else gs | [] => [] end.

Lemma sub_space_runs_collapse s :
  sub_space_runs_from false s =
    String.concat "" (map (fun g => if space_run g then "-" else g) (runs s)) /\
  sub_space_runs_from true s =
    String.concat "" (map (fun g => if space_run g then "-" else g) (drop_space_run (runs s))).
Proof.
  induction s as [|c r [IHf IHt]]; [split; reflexivity|].
  cbn [sub_space_runs_from runs].
  destruct (c =? " ")%char eqn:Hc.
  - rewrite IHt. destruct (runs r) as [|g gs]; simpl andb.
    + simpl. rewrite Hc. split; reflexivity.
    + destruct (space_run g) eqn:Hg; simpl drop_space_run; simpl space_run;
        rewrite ?Hg, ?Hc; split; try reflexivity; cbn [map];
        rewrite ?concat_empty_cons; simpl space_run; rewrite ?Hg, ?Hc; reflexivity.
  - rewrite IHf. simpl andb. destruct (runs r) as [|g gs];
      simpl drop_space_run; simpl space_run; rewrite Hc; cbn [map];
      rewrite ?concat_empty_cons; simpl space_run; rewrite ?Hc; split; reflexivity.
Qed.

Lemma item_type_label it : item_type it = match type_label (type it) with
                                          | Some l => Ok l | None => Err (UnknownItemType (type it)) end.
Proof.
  unfold item_type. destruct (type it) as [|[p|p|]|p]; try reflexivity;
    destruct p; try reflexivity; destruct p; reflexivity.
Qed.

Lemma passname_name_part it :
  lower (sub_space_runs (sub_separators (name it))) = spec_name_part (name it).
Proof.
  unfold sub_space_runs, spec_name_part, collapse_runs.
  rewrite lower_sub_space_runs, lower_sub_separators.
  apply (proj1 (sub_space_runs_collapse _)).
Qed.

(** Bitwarden item ids are UUIDs in their textual form: 36 characters,
    hex digits with a '-' at the positions 8, 13, 18 and 23. *)
Definition is_hex (c : ascii) : bool :=
  let n := nat_of_ascii c in
  (Nat.leb 48 n && Nat.leb n 57) || (Nat.leb 97 n && Nat.leb n 102)
  || (Nat.leb 65 n && Nat.leb n 70).

Fixpoint uuid_from (i : nat) (s : string) : bool :=
  match s with
  | EmptyString => Nat.eqb i 36
  | String c r =>
      (if existsb (Nat.eqb i) [8; 13; 18; 23] then (c =? "-")%char else is_hex c)
      && uuid_from (S i) r
  end.

Definition is_uuid (s : string) : bool := uuid_from 0 s.

Fixpoint all_hex (s : string) : bool :=
  match s with EmptyString => true | String c r => is_hex c && all_hex r end.

Lemma is_hex_not_dash c : is_hex c = true -> (c =? "-")%char = false.
Proof. destruct c as [[] [] [] [] [] [] [] []]; first [discriminate | reflexivity]. Qed.

(** For a UUID the part before the first '-' is its first 8 hex digits,
    so its first 4 characters are the first 4 characters of the id. *)
Lemma uuid_head s :
  is_uuid s = true ->
  substring 0 4 (split_dash_head s) = substring 0 4 s /\ all_hex (substring 0 4 s) = true.
Proof.
  unfold is_uuid. intros H.
  destruct s as [|c1 [|c2 [|c3 [|c4 r]]]]; simpl in H; try discriminate;
    repeat (apply andb_prop in H as [? H]); [discriminate..|].
  simpl. rewrite !is_hex_not_dash by assumption. simpl.
  split; [destruct (split_dash_head r), r; reflexivity|]. rewrite H0, H1, H2, H3. destruct r; reflexivity.
Qed.

(** Claim C1. For every item whose id is a UUID and whose type code is
    in {1,2,3,4} with label l, the entry name is the display name
    lower-cased, with '-', '_' and '|' turned into spaces and every
    maximal run of spaces replaced by one hyphen, then '-l-', then the
    first 4 characters of the id, which are hex digits.  The name depends
    only on id, name and type code, and a login "My Bank" with id
    "abc12345-..." gets "my-bank-login-abc1". *)
Theorem passname_canonical :
  (forall it l, is_uuid (id it) = true -> type_label (type it) = Some l ->
     passname it = Ok (spec_name_part (name it) +:+ "-" +:+ l +:+ "-" +:+
                       substring 0 4 (id it)) /\
     all_hex (substring 0 4 (id it)) = true) /\
  (forall it1 it2, id it1 = id it2 -> name it1 = name it2 -> type it1 = type it2 ->
     passname it1 = passname it2) /\
  passname (sample_item 1) = Ok "my-bank-login-abc1".
Proof.
  split; [|split].
  - intros it l Hu Hl. destruct (uuid_head _ Hu) as [Hh Hx].
    split; [|exact Hx].
    unfold passname. rewrite item_type_label, Hl. simpl.
    rewrite passname_name_part. unfold slice4. rewrite Hh. reflexivity.
  - intros it1 it2 Hi Hn Ht. unfold passname. rewrite !item_type_label, Hi, Hn, Ht.
    reflexivity.
  - vm_compute. reflexivity.
Qed.

(** A card whose display name has separators, runs of spaces and capitals. *)
Definition uuid_card : item :=
  {| id := "9F3c07aa-1b2d-4e5f-8a9b-0c1d2e3f4a5b"; name := "Joe's  -_|  Bank|Ltd";
     type := 3; login := None; card := None;
     identity := None; fields := None; attachments := None; notes := None |}.

Lemma passname_canonical_witness :
  passname uuid_card = Ok (spec_name_part "Joe's  -_|  Bank|Ltd" +:+ "-card-" +:+ "9F3c") /\
  spec_name_part "Joe's  -_|  Bank|Ltd" = "joe's-bank-ltd".
Proof.
  split; [|vm_compute; reflexivity].
  exact (proj1 (proj1 passname_canonical uuid_card "card" eq_refl eq_refl)).
Defined.

(* ------------------------------------------------------------------ *)
(** ** The unlock loop *)

Lemma length_zero_empty s : String.length s = 0 -> s = "".
Proof. destruct s; [reflexivity|discriminate]. Qed.

Lemma unlock_from_some outs fuel j s :
  unlock_from outs fuel j = Some s ->
  exists i, j <= i /\ s = outs i /\ 0 < String.length s /\
            forall m, j <= m < i -> outs m = "".
Proof.
  revert j. induction fuel as [|f IH]; intros j H; [discriminate|].
  simpl in H. destruct (Nat.ltb 0 (String.length (outs j))) eqn:Hl.
  - injection H as <-. apply Nat.ltb_lt in Hl.
    exists j. split; [lia|]. split; [reflexivity|]. split; [exact Hl|]. intros m Hm; lia.
  - apply Nat.ltb_ge in Hl. destruct (IH (S j) H) as (i & Hji & -> & Hpos & Hbefore).
    exists i. split; [lia|]. split; [reflexivity|]. split; [exact Hpos|].
    intros m Hm. destruct (Nat.eq_dec m j) as [->|Hne].
    + apply length_zero_empty. lia.
    + apply Hbefore. lia.
Qed.

Lemma unlock_from_reaches outs j d :
  outs (j + d) <> "" -> (forall m, j <= m < j + d -> outs m = "") ->
  unlock_from outs (S d) j = Some (outs (j + d)).
Proof.
  revert j. induction d as [|d IH]; intros j Hk Hbefore; simpl.
  - rewrite Nat.add_0_r in *. destruct (outs j) eqn:E; [congruence|reflexivity].
  - rewrite (Hbefore j ltac:(lia)). simpl.
    replace (j + S d) with (S j + d) by lia. apply IH.
    + replace (S j + d) with (j + S d) by lia. exact Hk.
    + intros m Hm. apply Hbefore. lia.
Qed.

(** Claim C8. unlock never returns the empty string; and when the k-th
    output is the first non-empty one, unlock returns it once the loop has
    run long enough, and returns nothing else for any number of runs. *)
Theorem unlock_returns_first_nonempty :
  (forall outs fuel s, unlock outs fuel = Some s -> s <> "") /\
  (forall outs k, outs k <> "" -> (forall j, j < k -> outs j = "") ->
     (exists fuel, unlock outs fuel = Some (outs k)) /\
     (forall fuel s, unlock outs fuel = Some s -> s = outs k)).
Proof.
  split.
  - intros outs fuel s H. destruct (unlock_from_some _ _ _ _ H) as (i & _ & _ & Hpos & _).
    intros ->. simpl in Hpos. lia.
  - intros outs k Hk Hbefore. split.
    + exists (S k). apply (unlock_from_reaches outs 0 k); [exact Hk|].
      intros m Hm. apply Hbefore. lia.
    + intros fuel s H. destruct (unlock_from_some _ _ _ _ H) as (i & _ & -> & Hpos & Hb).
      destruct (Nat.lt_trichotomy i k) as [Hlt|[->|Hgt]].
      * rewrite (Hbefore i Hlt) in Hpos. simpl in Hpos. lia.
      * reflexivity.
      * exfalso. apply Hk. apply Hb. lia.
Qed.

Definition unlock_outs (k : nat) : string := if Nat.ltb k 3 then "" else "tok".

Lemma unlock_returns_first_nonempty_witness :
  unlock unlock_outs 4 = Some "tok" /\ (forall fuel s, unlock unlock_outs fuel = Some s -> s = "tok").
Proof.
  destruct (proj2 unlock_returns_first_nonempty unlock_outs 3 ltac:(discriminate)
              ltac:(intros j Hj; unfold unlock_outs; apply Nat.ltb_lt in Hj; rewrite Hj; reflexivity))
    as [_ Hall].
  split; [reflexivity|exact Hall].
Defined.

(* ------------------------------------------------------------------ *)
(** ** The synchronisation loop *)

Lemma inserts_app l1 l2 : inserts (l1 ++ l2) = inserts l1 ++ inserts l2.
Proof. induction l1 as [|[] l1 IH]; simpl; rewrite ?IH; reflexivity. Qed.

Lemma apply_inserts_app l1 l2 m :
  apply_inserts (l1 ++ l2) m = apply_inserts l2 (apply_inserts l1 m).
Proof. unfold apply_inserts. apply fold_left_app. Qed.

Lemma apply_inserts_union l m : apply_inserts l m = apply_inserts l ∅ ∪ m.
Proof.
  revert m. induction l as [|[k v] l IH]; intros m; simpl.
  - rewrite map_empty_union. reflexivity.
  - unfold apply_inserts in *. simpl. rewrite (IH (<[k:=v]> m)), (IH (<[k:=v]> ∅)).
    rewrite <- map_union_assoc. f_equal. rewrite insert_empty. apply insert_union_singleton_l.
Qed.


Lemma apply_inserts_dom l m k : k ∈ dom m -> k ∈ dom (apply_inserts l m).
Proof.
  intros Hk. rewrite apply_inserts_union, dom_union_L. set_solver.
Qed.

Lemma apply_inserts_frame l m n :
  (forall b, ~ In (n, b) l) -> apply_inserts l m !! n = m !! n.
Proof.
  revert m. induction l as [|[k v] l IH]; intros m Hn; [reflexivity|].
  unfold apply_inserts. simpl. fold (apply_inserts l (<[k:=v]> m)).
  rewrite IH by (intros b Hb; apply (Hn b); right; exact Hb).
  apply lookup_insert_ne. intros ->. apply (Hn v). left; reflexivity.
Qed.



Lemma pass_exists_dom m1 m2 nm : dom m1 = dom m2 -> pass_exists m1 nm = pass_exists m2 nm.
Proof. intros H. unfold pass_exists, is_file, is_dir. rewrite H. reflexivity. Qed.

Lemma is_file_dom m1 m2 nm : dom m1 = dom m2 -> is_file m1 nm = is_file m2 nm.
Proof. intros H. unfold is_file. rewrite H. reflexivity. Qed.






Lemma main_run_store items s : fst (main_run items s) = fst (sync_items s items).
Proof.
  unfold main_run. destruct (sync_items s items) as [s' [u|e]]; [|reflexivity].
  destruct (mapM passname items); reflexivity.
Qed.



Lemma str_length_app a b : String.length (a +:+ b) = String.length a + String.length b.
Proof. induction a as [|c a IH]; simpl; [reflexivity|rewrite IH; reflexivity]. Qed.

Lemma substring_whole b : substring 0 (String.length b) b = b.
Proof. induction b as [|c b IH]; simpl; [reflexivity|rewrite IH; reflexivity]. Qed.

Lemma substring_app_r a b : substring (String.length a) (String.length b) (a +:+ b) = b.
Proof. induction a as [|c a IH]; simpl; [apply substring_whole|exact IH]. Qed.

Lemma substring_app_l a b : substring 0 (String.length a) (a +:+ b) = a.
Proof. induction a as [|c a IH]; simpl; [destruct b; reflexivity|rewrite IH; reflexivity]. Qed.

Lemma endswith_gpg e : endswith (get_file_path e) ".gpg" = true.
Proof.
  unfold endswith, get_file_path. rewrite str_length_app.
  replace (String.length e + String.length ".gpg" - String.length ".gpg")
    with (String.length e) by lia.
  rewrite substring_app_r. rewrite String.eqb_refl, andb_true_r.
  apply Nat.leb_le. lia.
Qed.

Lemma removesuffix_gpg e : removesuffix (get_file_path e) ".gpg" = e.
Proof.
  unfold removesuffix. rewrite endswith_gpg. unfold get_file_path. rewrite str_length_app.
  replace (String.length e + String.length ".gpg" - String.length ".gpg")
    with (String.length e) by lia.
  apply substring_app_l.
Qed.

(** An entry stored at the top of the store directory (its name has no
    '/') is listed by [list_pass_names]. *)
Lemma top_level_listed (fs : store) e :
  e ∈ dom fs -> split_slash e = None -> In e (list_pass_names fs).
Proof.
  intros He Hs. unfold list_pass_names.
  apply in_map_iff. exists (get_file_path e). split; [apply removesuffix_gpg|].
  apply filter_In.
  split; [|apply endswith_gpg].
  apply list_elem_of_In. unfold scandir. apply elem_of_elements.
  apply elem_of_map. exists e. split; [|exact He].
  unfold top_component. rewrite Hs. reflexivity.
Qed.


Definition orphan_store : store := <["old" := "y"]> ∅.



(* ------------------------------------------------------------------ *)
(** ** Further properties of the program *)

(** Character tests on strings. *)
Fixpoint has_char (c : ascii) (s : string) : bool :=
  match s with
  | EmptyString => false
  | String c' r => (c' =? c)%char || has_char c r
  end.

Definition starts_with_hyphen (s : string) : bool :=
  match s with String c _ => (c =? "-")%char | EmptyString => false end.

Fixpoint has_double_hyphen (s : string) : bool :=
  match s with
  | EmptyString => false
  | String c r => ((c =? "-")%char && starts_with_hyphen r) || has_double_hyphen r
  end.

Lemma lower_char_hyphen c : (lower_char c =? "-")%char = (c =? "-")%char.
Proof. destruct c as [[] [] [] [] [] [] [] []]; reflexivity. Qed.

Lemma lower_char_underscore c : (lower_char c =? "_")%char = (c =? "_")%char.
Proof. destruct c as [[] [] [] [] [] [] [] []]; reflexivity. Qed.

Lemma lower_char_pipe c : (lower_char c =? "|")%char = (c =? "|")%char.
Proof. destruct c as [[] [] [] [] [] [] [] []]; reflexivity. Qed.

Lemma lower_char_slash c : (lower_char c =? "/")%char = (c =? "/")%char.
Proof. destruct c as [[] [] [] [] [] [] [] []]; reflexivity. Qed.

Lemma lower_char_idem c : lower_char (lower_char c) = lower_char c.
Proof. destruct c as [[] [] [] [] [] [] [] []]; reflexivity. Qed.

Lemma lower_idem s : lower (lower s) = lower s.
Proof. induction s as [|c s IH]; simpl; [reflexivity|rewrite lower_char_idem, IH; reflexivity]. Qed.

Lemma has_char_lower c s :
  (forall x, (lower_char x =? c)%char = (x =? c)%char) ->
  has_char c (lower s) = has_char c s.
Proof. intros Hc. induction s as [|x s IH]; simpl; [reflexivity|rewrite Hc, IH; reflexivity]. Qed.

Lemma sub_separators_no c s :
  (c = "-"%char \/ c = "_"%char \/ c = "|"%char) -> has_char c (sub_separators s) = false.
Proof.
  intros Hc. induction s as [|x s IH]; [reflexivity|]. simpl. rewrite IH, orb_false_r.
  destruct ((x =? "-")%char || (x =? "_")%char || (x =? "|")%char) eqn:E.
  - destruct Hc as [ -> | [ -> | -> ] ]; reflexivity.
  - apply Ascii.eqb_neq. intros ->.
    destruct Hc as [ -> | [ -> | -> ] ]; simpl in E; rewrite ?orb_true_r in E; discriminate.
Qed.

Lemma sub_space_runs_keeps c b s :
  c <> "-"%char -> has_char c (sub_space_runs_from b s) = true -> has_char c s = true.
Proof.
  intros Hc. revert b. induction s as [|x s IH]; intros b; [discriminate|].
  cbn [sub_space_runs_from has_char].
  destruct (x =? " ")%char eqn:Hx; [destruct b|].
  - intros H. rewrite (IH true H). apply orb_true_r.
  - cbn [has_char]. destruct (("-" =? c)%char) eqn:E.
    + apply Ascii.eqb_eq in E. congruence.
    + rewrite orb_false_l. intros H. rewrite (IH true H). apply orb_true_r.
  - cbn [has_char]. intros H. apply orb_true_iff in H as [H|H]; [rewrite H; reflexivity|].
    rewrite (IH false H). apply orb_true_r.
Qed.

Lemma sub_space_runs_hyphens s :
  has_char "-" s = false ->
  starts_with_hyphen (sub_space_runs_from true s) = false /\
  (forall b, has_double_hyphen (sub_space_runs_from b s) = false) /\
  (forall b, has_char " " (sub_space_runs_from b s) = false).
Proof.
  induction s as [|x s IH]; intros Hs; [repeat split|].
  simpl in Hs. apply orb_false_iff in Hs as [Hx Hs]. destruct (IH Hs) as (Ht & Hd & Hsp).
  simpl. destruct (x =? " ")%char eqn:E.
  - split; [exact Ht|]. split; intros []; simpl; rewrite ?Ht, ?Hd, ?Hsp; reflexivity.
  - simpl. rewrite Hx. split; [reflexivity|].
    split; intros b; simpl; rewrite ?Hx, ?Hd, ?Hsp, ?orb_false_r; [reflexivity|exact E].
Qed.

Lemma split_dash_head_no_hyphen s : has_char "-" (split_dash_head s) = false.
Proof.
  induction s as [|x s IH]; [reflexivity|]. simpl.
  destruct (x =? "-")%char eqn:E; [reflexivity|]. simpl. rewrite E, IH. reflexivity.
Qed.

Lemma substring_keeps c n m s :
  has_char c (substring n m s) = true -> has_char c s = true.
Proof.
  revert n m. induction s as [|x s IH]; intros n m H.
  - destruct n, m; discriminate.
  - destruct n as [|n].
    + destruct m as [|m]; [discriminate|]. simpl in H |- *.
      apply orb_true_iff in H as [H|H]; [rewrite H; reflexivity|].
      apply IH in H. rewrite H. apply orb_true_r.
    + simpl in H |- *. apply IH in H. rewrite H. apply orb_true_r.
Qed.

Lemma substring_length_le n m s : String.length (substring n m s) <= m.
Proof.
  revert n m. induction s as [|x s IH]; intros n m.
  - destruct n, m; simpl; lia.
  - destruct n as [|n]; [destruct m as [|m]; simpl; [lia|specialize (IH 0 m); lia]|].
    simpl. apply IH.
Qed.

Definition name_part_of (s : string) : string := lower (sub_space_runs (sub_separators s)).

Lemma has_double_hyphen_lower s : has_double_hyphen (lower s) = has_double_hyphen s.
Proof.
  induction s as [|x s IH]; [reflexivity|]. cbn [lower has_double_hyphen].
  rewrite IH, lower_char_hyphen. f_equal. f_equal.
  destruct s as [|y s]; [reflexivity|]. cbn [lower starts_with_hyphen]. apply lower_char_hyphen.
Qed.

Lemma name_part_props s :
  lower (name_part_of s) = name_part_of s /\
  has_char " " (name_part_of s) = false /\ has_char "_" (name_part_of s) = false /\
  has_char "|" (name_part_of s) = false /\ has_double_hyphen (name_part_of s) = false.
Proof.
  unfold name_part_of, sub_space_runs.
  assert (Hd : has_char "-" (sub_separators s) = false) by (apply sub_separators_no; left; reflexivity).
  destruct (sub_space_runs_hyphens _ Hd) as (_ & Hdd & Hsp).
  split; [apply lower_idem|].
  rewrite (has_char_lower " " _ lower_char_space), (has_char_lower "_" _ lower_char_underscore),
    (has_char_lower "|" _ lower_char_pipe), has_double_hyphen_lower.
  split; [apply Hsp|]. split; [|split; [|apply Hdd]].
  - destruct (has_char "_" _) eqn:E; [|reflexivity].
    apply sub_space_runs_keeps in E; [|discriminate].
    rewrite sub_separators_no in E; [discriminate|right; left; reflexivity].
  - destruct (has_char "|" _) eqn:E; [|reflexivity].
    apply sub_space_runs_keeps in E; [|discriminate].
    rewrite sub_separators_no in E; [discriminate|right; right; reflexivity].
Qed.

(** Every entry name is [nm-t-suf]: [t] the item's type label, [nm] the
    display name with no space, '_' or '|', never two hyphens in a row,
    and unchanged by lower-casing, [suf] at most 4 characters with no
    '-'. *)
Theorem passname_shape it p :
  passname it = Ok p ->
  exists nm t suf,
    p = nm +:+ "-" +:+ t +:+ "-" +:+ suf /\ item_type it = Ok t /\
    lower nm = nm /\ has_char " " nm = false /\ has_char "_" nm = false /\
    has_char "|" nm = false /\ has_double_hyphen nm = false /\
    String.length suf <= 4 /\ has_char "-" suf = false.
Proof.
  unfold passname. destruct (item_type it) as [t|e] eqn:Ht; [|discriminate].
  intros H. injection H as <-.
  exists (name_part_of (name it)), t, (slice4 (split_dash_head (id it))).
  destruct (name_part_props (name it)) as (H1 & H2 & H3 & H4 & H5).
  split; [reflexivity|]. split; [reflexivity|].
  repeat (split; [assumption|]). split; [apply substring_length_le|].
  destruct (has_char "-" _) eqn:E; [|reflexivity].
  apply substring_keeps in E. rewrite split_dash_head_no_hyphen in E. discriminate.
Qed.

Definition messy_name_item : item :=
  {| id := "9f_x-0000"; name := "Joe's  -_|  Bank|Ltd"; type := 3; login := None; card := None;
     identity := None; fields := None; attachments := None; notes := None |}.

Lemma passname_shape_witness :
  exists nm t suf, "joe's-bank-ltd-card-9f_x" = nm +:+ "-" +:+ t +:+ "-" +:+ suf /\
    has_double_hyphen nm = false /\ String.length suf <= 4.
Proof.
  destruct (passname_shape messy_name_item "joe's-bank-ltd-card-9f_x" ltac:(vm_compute; reflexivity))
    as (nm & t & suf & Hp & _ & _ & _ & _ & _ & Hd & Hl & _).
  exists nm, t, suf. split; [exact Hp|split; assumption].
Defined.

Lemma list_NoDup_map_in {A B} (f : A -> B) (l : list A) :
  (forall x y, In x l -> In y l -> f x = f y -> x = y) -> List.NoDup l -> List.NoDup (map f l).
Proof.
  intros Hinj Hl. induction Hl as [|x l Hx Hl IH]; simpl; constructor.
  - intros Hin. apply in_map_iff in Hin as (y & Hy & Hyl).
    assert (x = y) by (apply Hinj; [left; reflexivity|right; exact Hyl|symmetry; exact Hy]).
    subst y. contradiction.
  - apply IH. intros a b Ha Hb. apply Hinj; right; assumption.
Qed.

Lemma scandir_flat (fs : store) n :
  (forall k, k ∈ dom fs -> split_slash k = None) ->
  In n (scandir fs) -> exists k, k ∈ dom fs /\ n = get_file_path k.
Proof.
  intros Hflat Hn. apply list_elem_of_In in Hn. unfold scandir in Hn.
  apply elem_of_elements, elem_of_map in Hn as (k & -> & Hk).
  exists k. split; [exact Hk|]. unfold top_component. rewrite (Hflat k Hk). reflexivity.
Qed.

(** For a store without subfolders (no entry name has a '/'),
    [list_pass_names] lists exactly the store's entries, each once. *)
Theorem list_pass_names_flat (fs : store) :
  (forall k, k ∈ dom fs -> split_slash k = None) ->
  (forall e, In e (list_pass_names fs) <-> e ∈ dom fs) /\ List.NoDup (list_pass_names fs).
Proof.
  intros Hflat. split.
  - intros e. split.
    + unfold list_pass_names. intros He. apply in_map_iff in He as (n & <- & Hn).
      apply filter_In in Hn as [Hn _]. destruct (scandir_flat fs n Hflat Hn) as (k & Hk & ->).
      rewrite removesuffix_gpg. exact Hk.
    + intros He. apply top_level_listed; [exact He|]. apply Hflat. exact He.
  - unfold list_pass_names. apply list_NoDup_map_in.
    + intros x y Hx Hy Hxy. apply filter_In in Hx as [Hx _]. apply filter_In in Hy as [Hy _].
      destruct (scandir_flat fs x Hflat Hx) as (kx & _ & ->).
      destruct (scandir_flat fs y Hflat Hy) as (ky & _ & ->).
      rewrite !removesuffix_gpg in Hxy. subst. reflexivity.
    + apply List.NoDup_filter. unfold scandir. apply NoDup_ListNoDup. apply NoDup_elements.
Qed.

Definition flat_store : store := <["old" := "y"]> (<["mail-login-1234" := "x"]> ∅).

Lemma list_pass_names_flat_witness :
  (forall e, In e (list_pass_names flat_store) <-> e ∈ dom flat_store) /\
  List.NoDup (list_pass_names flat_store).
Proof.
  apply list_pass_names_flat. intros k Hk.
  unfold flat_store in Hk. rewrite !dom_insert_L, dom_empty_L in Hk.
  apply elem_of_union in Hk as [Hk|Hk]; [apply elem_of_singleton in Hk; subst; reflexivity|].
  apply elem_of_union in Hk as [Hk|Hk]; [apply elem_of_singleton in Hk; subst; reflexivity|].
  apply elem_of_empty in Hk. destruct Hk.
Defined.

Lemma sync_items_app s pre post :
  sync_items s (pre ++ post) =
    match sync_items s pre with
    | (s', Err e) => (s', Err e)
    | (s', Ok _) => sync_items s' post
    end.
Proof.
  revert s. induction pre as [|it pre IH]; intros s; [simpl; reflexivity|].
  simpl. destruct (process_item s it) as [s1 [u|e]]; [apply IH|reflexivity].
Qed.

Lemma process_item_fails s it e :
  (passname it = Err e \/ (exists nm, passname it = Ok nm) /\ format it = Err e) ->
  process_item s it = (s, Err e).
Proof.
  intros [Hp|[[nm Hp] Hf]]; unfold process_item; rewrite Hp; [reflexivity|]. rewrite Hf. reflexivity.
Qed.

Lemma sync_items_ok items s :
  snd (sync_items s items) = Ok () ->
  exists ops, log (fst (sync_items s items)) = log s ++ ops /\
    Forall2 (fun it nb => passname it = Ok nb.1 /\ format it = Ok nb.2) items (inserts ops).
Proof.
  revert s. induction items as [|it rest IH]; intros s Hok.
  - exists []. simpl. rewrite app_nil_r. split; [reflexivity|constructor].
  - simpl in Hok |- *. unfold process_item in Hok |- *.
    destruct (passname it) as [nm|e] eqn:Hp; [|discriminate].
    destruct (format it) as [c|e] eqn:Hf; [|discriminate].
    destruct (pass_exists (store_of s) nm) eqn:He.
    + unfold remove_force in Hok |- *. destruct (is_file (store_of s) nm); [|discriminate].
      destruct (IH _ Hok) as (ops & Hl & H2).
      exists ([Rm nm; Ins nm c] ++ ops). split.
      * rewrite Hl. simpl. rewrite <- !app_assoc. reflexivity.
      * rewrite inserts_app. simpl. constructor; [split; assumption|exact H2].
    + destruct (IH _ Hok) as (ops & Hl & H2).
      exists ([Ins nm c] ++ ops). split.
      * rewrite Hl. simpl. rewrite <- !app_assoc. reflexivity.
      * rewrite inserts_app. simpl. constructor; [split; assumption|exact H2].
Qed.

Lemma main_run_ok_sync items s lines :
  snd (main_run items s) = Ok lines -> snd (sync_items s items) = Ok ().
Proof.
  unfold main_run. destruct (sync_items s items) as [s' [[]|e]]; [reflexivity|discriminate].
Qed.

Lemma run_ok_inserts items fs lines :
  snd (run_on items fs) = Ok lines ->
  Forall2 (fun it nb => passname it = Ok nb.1 /\ format it = Ok nb.2) items
    (inserts (log (fst (run_on items fs)))).
Proof.
  intros H. apply main_run_ok_sync in H. unfold run_on. rewrite main_run_store.
  destruct (sync_items_ok _ _ H) as (ops & -> & H2). exact H2.
Qed.

Lemma apply_inserts_last l1 n b l2 m :
  (forall b', ~ In (n, b') l2) -> apply_inserts (l1 ++ (n, b) :: l2) m !! n = Some b.
Proof.
  intros H. rewrite apply_inserts_app. change ((n, b) :: l2) with ([(n, b)] ++ l2).
  rewrite apply_inserts_app, apply_inserts_frame by exact H.
  unfold apply_inserts. simpl. apply lookup_insert_eq.
Qed.

Lemma apply_inserts_in l m n b : In (n, b) l -> n ∈ dom (apply_inserts l m).
Proof.
  intros H. apply in_split in H as (l1 & l2 & ->).
  rewrite apply_inserts_app. change ((n, b) :: l2) with ([(n, b)] ++ l2).
  rewrite apply_inserts_app. apply apply_inserts_dom. unfold apply_inserts. simpl.
  rewrite dom_insert_L. set_solver.
Qed.

Lemma mapM_passname_complete items synced it y :
  mapM passname items = Ok synced -> In it items -> passname it = Ok y -> In y synced.
Proof.
  revert synced. induction items as [|it0 rest IH]; intros synced Hm Hin Hp; [destruct Hin|].
  simpl in Hm. destruct (passname it0) as [p|e] eqn:Hp0; [|discriminate].
  simpl in Hm. destruct (mapM passname rest) as [ps|e] eqn:Hr; [|discriminate].
  injection Hm as <-. destruct Hin as [<-|Hin].
  - left. congruence.
  - right. apply (IH ps eq_refl Hin Hp).
Qed.

Lemma has_char_app c a b : has_char c (a +:+ b) = has_char c a || has_char c b.
Proof. induction a as [|x a IH]; simpl; [reflexivity|rewrite IH, orb_assoc; reflexivity]. Qed.

Lemma split_slash_none s : has_char "/" s = false -> split_slash s = None.
Proof.
  induction s as [|x s IH]; intros H; [reflexivity|]. cbn [has_char] in H.
  apply orb_false_iff in H as [Hx Hs]. cbn [split_slash]. rewrite Hx, (IH Hs). reflexivity.
Qed.

Lemma sub_separators_slash s : has_char "/" (sub_separators s) = has_char "/" s.
Proof.
  induction s as [|x s IH]; [reflexivity|]. cbn [sub_separators has_char]. rewrite IH. f_equal.
  destruct ((x =? "-")%char || (x =? "_")%char || (x =? "|")%char) eqn:E; [|reflexivity].
  destruct x as [[] [] [] [] [] [] [] []]; try discriminate E; reflexivity.
Qed.

Lemma passname_no_slash it p :
  has_char "/" (name it) = false -> has_char "/" (id it) = false ->
  passname it = Ok p -> split_slash p = None.
Proof.
  intros Hn Hi. unfold passname. destruct (item_type it) as [t|e] eqn:Ht; [|discriminate].
  intros H. injection H as <-. apply split_slash_none.
  rewrite !has_char_app, (has_char_lower "/" _ lower_char_slash).
  destruct (has_char "/" (sub_space_runs (sub_separators (name it)))) eqn:E1.
  { apply sub_space_runs_keeps in E1; [|discriminate]. rewrite sub_separators_slash, Hn in E1.
    discriminate. }
  destruct (has_char "/" (slice4 (split_dash_head (id it)))) eqn:E2.
  { apply substring_keeps in E2. exfalso. revert E2. clear -Hi. induction (id it) as [|x s IH];
      [discriminate|]. cbn [has_char] in Hi. apply orb_false_iff in Hi as [Hx Hs].
    cbn [split_dash_head]. destruct (x =? "-")%char; [discriminate|].
    cbn [has_char]. rewrite Hx. apply IH, Hs. }
  revert E2. generalize (slice4 (split_dash_head (id it))) as suf. intros suf E2.
  rewrite orb_false_l.
  unfold item_type in Ht.
  destruct (type it =? 1)%Z; [injection Ht as <-; simpl; exact E2|].
  destruct (type it =? 2)%Z; [injection Ht as <-; simpl; exact E2|].
  destruct (type it =? 3)%Z; [injection Ht as <-; simpl; exact E2|].
  destruct (type it =? 4)%Z; [injection Ht as <-; simpl; exact E2|discriminate].
Qed.

Lemma Forall2_in_l {A B} (P : A -> B -> Prop) l1 l2 x :
  Forall2 P l1 l2 -> In x l1 -> exists y, In y l2 /\ P x y.
Proof.
  induction 1 as [|a b l1 l2 Hab _ IH]; intros Hx; [destruct Hx|].
  destruct Hx as [<-|Hx]; [exists b; split; [left; reflexivity|exact Hab]|].
  destruct (IH Hx) as (y & Hy & Hp). exists y. split; [right; exact Hy|exact Hp].
Qed.

Lemma Forall2_in_r {A B} (P : A -> B -> Prop) l1 l2 y :
  Forall2 P l1 l2 -> In y l2 -> exists x, In x l1 /\ P x y.
Proof.
  induction 1 as [|a b l1 l2 Hab _ IH]; intros Hy; [destruct Hy|].
  destruct Hy as [<-|Hy]; [exists a; split; [left; reflexivity|exact Hab]|].
  destruct (IH Hy) as (x & Hx & Hp). exists x. split; [right; exact Hx|exact Hp].
Qed.

Lemma apply_inserts_cases l m k :
  apply_inserts l m !! k = m !! k \/ exists b, In (k, b) l /\ apply_inserts l m !! k = Some b.
Proof.
  revert m. induction l as [|[k' v] l IH]; intros m; [left; reflexivity|].
  unfold apply_inserts. simpl. fold (apply_inserts l (<[k':=v]> m)).
  destruct (IH (<[k':=v]> m)) as [H|(b & Hb & H)].
  - rewrite H. destruct (String.eq_dec k k') as [->|Hne].
    + right. exists v. split; [left; reflexivity|apply lookup_insert_eq].
    + left. apply lookup_insert_ne. congruence.
  - right. exists b. split; [right; exact Hb|exact H].
Qed.

(** A run that finishes calls [pass insert] exactly once per item, in
    the order of the list, with the item's entry name and formatted
    body. *)
Theorem run_inserts_each_item items fs lines :
  snd (run_on items fs) = Ok lines ->
  Forall2 (fun it nb => passname it = Ok nb.1 /\ format it = Ok nb.2) items
    (inserts (log (fst (run_on items fs)))).
Proof. apply run_ok_inserts. Qed.

(** A second note under the entry name of [sample_item 2]. *)
Definition second_note : item :=
  {| id := "abc1ffff-0000"; name := "My_Bank"; type := 2; login := None; card := None;
     identity := None; fields := None; attachments := None; notes := Some "second" |}.

Lemma run_inserts_each_item_witness :
  Forall2 (fun it nb => passname it = Ok nb.1 /\ format it = Ok nb.2)
    [sample_item 2; sample_login; second_note]
    (inserts (log (fst (run_on [sample_item 2; sample_login; second_note] orphan_store)))) /\
  map fst (inserts (log (fst (run_on [sample_item 2; sample_login; second_note] orphan_store))))
    = ["my-bank-note-abc1"; "my-bank-login-abc1"; "my-bank-note-abc1"].
Proof.
  split; [|vm_compute; reflexivity].
  apply (run_inserts_each_item _ _ (warning_lines ["old"])). vm_compute. reflexivity.
Defined.




(** The shape of a log: each removal [Rm n] is directly followed by an
    insert [Ins n b] with [P n b]. *)
Inductive rm_ins (P : string -> string -> Prop) : list op -> Prop :=
  | ri_nil : rm_ins P []
  | ri_ins n b r : rm_ins P r -> rm_ins P (Ins n b :: r)
  | ri_rm n b r : P n b -> rm_ins P r -> rm_ins P (Rm n :: Ins n b :: r).

Lemma rm_ins_app P l1 l2 : rm_ins P l1 -> rm_ins P l2 -> rm_ins P (l1 ++ l2).
Proof.
  induction 1 as [|n b r _ IH|n b r Hp _ IH]; intros H2; simpl; [exact H2| |].
  - constructor. apply IH, H2.
  - constructor; [exact Hp|]. apply IH, H2.
Qed.

Lemma rm_ins_split P l l1 n l2 :
  rm_ins P l -> l = l1 ++ Rm n :: l2 -> exists b l3, l2 = Ins n b :: l3 /\ P n b.
Proof.
  intros H. revert l1. induction H as [|n0 b0 r _ IH|n0 b0 r Hp _ IH]; intros l1 Hl.
  - destruct l1; discriminate.
  - destruct l1 as [|x l1]; [discriminate|]. injection Hl as _ Hr. exact (IH l1 Hr).
  - destruct l1 as [|x [|y l1]].
    + injection Hl as <- <-. exists b0, r. split; [reflexivity|exact Hp].
    + injection Hl as _ Hr. discriminate Hr.
    + injection Hl as _ _ Hr. exact (IH l1 Hr).
Qed.

Lemma sync_items_rm_ins (P : string -> string -> Prop) items s :
  (forall it n b, In it items -> passname it = Ok n -> format it = Ok b -> P n b) ->
  rm_ins P (log s) -> rm_ins P (log (fst (sync_items s items))).
Proof.
  revert s. induction items as [|it rest IH]; intros s HP Hs; [exact Hs|].
  assert (HP' : forall it' n b, In it' rest -> passname it' = Ok n -> format it' = Ok b -> P n b)
    by (intros it' n b Hin; apply HP; right; exact Hin).
  simpl. unfold process_item.
  destruct (passname it) as [nm|e] eqn:Hp; [|exact Hs].
  destruct (format it) as [c|e] eqn:Hf; [|exact Hs].
  destruct (pass_exists (store_of s) nm).
  - unfold remove_force. destruct (is_file (store_of s) nm); [|exact Hs].
    apply IH; [exact HP'|]. simpl. rewrite <- app_assoc. apply rm_ins_app; [exact Hs|].
    constructor; [apply (HP it); [left; reflexivity|exact Hp|exact Hf]|constructor].
  - apply IH; [exact HP'|]. simpl. apply rm_ins_app; [exact Hs|]. constructor. constructor.
Qed.

(** In every run, finished or not, each removal of an existing entry [n]
    is directly followed by the [pass insert] call for [n], and the body
    given to it is the formatted body of an item whose entry name is
    [n]: the body is built before the old entry is removed. *)
Theorem removal_followed_by_insert items fs l1 n l2 :
  log (fst (run_on items fs)) = l1 ++ Rm n :: l2 ->
  exists b l3, l2 = Ins n b :: l3 /\
    exists it, In it items /\ passname it = Ok n /\ format it = Ok b.
Proof.
  intros H. unfold run_on in H. rewrite main_run_store in H.
  refine (rm_ins_split (fun n b => exists it, In it items /\ passname it = Ok n /\ format it = Ok b)
            _ l1 n l2 _ H).
  apply sync_items_rm_ins; [|constructor].
  intros it n' b Hin Hp Hf. exists it. auto.
Qed.

(** A store that already holds the entry of [sample_item 2]. *)
Definition stale_store : store := <["my-bank-note-abc1" := "old body"]> ∅.

Lemma removal_followed_by_insert_witness :
  exists b l3, [Ins "my-bank-note-abc1" ("Name: My Bank" +:+ String "010" "")] =
               Ins "my-bank-note-abc1" b :: l3 /\
    exists it, In it [sample_item 2] /\ passname it = Ok "my-bank-note-abc1" /\ format it = Ok b.
Proof.
  apply (removal_followed_by_insert [sample_item 2] stale_store []). vm_compute. reflexivity.
Defined.

(** Processing stops at the first item whose entry name or body cannot
    be built: the store and the log are those the items before it left,
    the item's old entry is not removed, and later items are not
    looked at. *)
Theorem run_stops_at_failing_item pre it post fs lines e :
  snd (run_on pre fs) = Ok lines ->
  (passname it = Err e \/ (exists nm, passname it = Ok nm) /\ format it = Err e) ->
  run_on (pre ++ it :: post) fs = (fst (run_on pre fs), Err e).
Proof.
  intros Hok Hfail. apply main_run_ok_sync in Hok.
  unfold run_on in *. rewrite main_run_store. unfold main_run at 1.
  rewrite sync_items_app. destruct (sync_items {| store_of := fs; log := [] |} pre) as [s' [[]|e']].
  - simpl. rewrite (process_item_fails s' it e Hfail). reflexivity.
  - discriminate.
Qed.

Lemma run_stops_at_failing_item_witness :
  run_on [sample_item 2; sample_item 1; second_note] orphan_store =
    (fst (run_on [sample_item 2] orphan_store), Err (KeyError "login")).
Proof.
  apply (run_stops_at_failing_item [sample_item 2] (sample_item 1) [second_note] _
           (warning_lines ["old"])).
  - vm_compute. reflexivity.
  - right. split; [exists "my-bank-login-abc1"|]; vm_compute; reflexivity.
Defined.

(** Every line of the orphan warning of a finished run is its header or
    a tab followed by a name that [list_pass_names] listed before the run
    and that is the entry name of no item: no entry written in the run is
    reported. *)
Theorem warning_reports_only_orphans items fs lines l :
  snd (run_on items fs) = Ok lines -> In l lines ->
  l = warning_header \/
  exists e, l = String "009" "" +:+ e /\ In e (list_pass_names fs) /\
            forall it, In it items -> passname it <> Ok e.
Proof.
  unfold run_on, main_run. simpl.
  destruct (sync_items {| store_of := fs; log := [] |} items) as [s' [u|err]]; [|discriminate].
  destruct (mapM passname items) as [synced|err] eqn:Hm; [|discriminate].
  intros H Hl. injection H as <-. unfold warning_lines in Hl.
  destruct (Nat.ltb 0 _); [|destruct Hl].
  destruct Hl as [<-|Hl]; [left; reflexivity|right].
  apply in_map_iff in Hl as (e & <- & He). apply filter_In in He as [He Hn].
  exists e. split; [reflexivity|]. split; [exact He|].
  intros it Hit Hp. apply (mapM_passname_complete _ _ it e Hm Hit) in Hp.
  assert (existsb (String.eqb e) synced = true)
    by (apply existsb_exists; exists e; split; [exact Hp|apply String.eqb_refl]).
  rewrite H in Hn. discriminate.
Qed.

Lemma warning_reports_only_orphans_witness :
  exists e, String "009" "old" = String "009" "" +:+ e /\ In e (list_pass_names orphan_store).
Proof.
  destruct (warning_reports_only_orphans [sample_item 2] orphan_store (warning_lines ["old"])
              (String "009" "old") ltac:(vm_compute; reflexivity) ltac:(right; left; reflexivity))
    as [H|(e & He & Hin & _)]; [discriminate|].
  exists e. split; assumption.
Defined.


Lemma emitted_keys_sub d k : In k (map fst (emitted d)) -> In k (map fst d).
Proof.
  induction d as [|[k' [v|]] d IH]; simpl; [tauto| |]; intros H.
  - destruct H as [H|H]; [left; exact H|right; apply IH, H].
  - right. apply IH, H.
Qed.

Lemma NoDup_emitted_keys d : List.NoDup (map fst d) -> List.NoDup (map fst (emitted d)).
Proof.
  induction d as [|[k [v|]] d IH]; simpl; intros H; [constructor| |].
  - inversion H as [|x l Hx Hd]; subst. constructor; [|apply IH, Hd].
    intros Hin. apply Hx, emitted_keys_sub, Hin.
  - inversion H as [|x l Hx Hd]; subst. apply IH, Hd.
Qed.

(** The number of dictionary assignments [BWItem.format] performs, line
    by line: ['Name'] and ['Notes']; for a login the three of
    [format_login] and one per URI (one when there is a single URI); five
    for a card; eighteen for an identity; one per custom field; three per
    attachment. *)
Definition assignment_count (it : item) : nat :=
  2 + match item_type it with
      | Ok t =>
          if String.eqb t "login" then
            match login it with
            | Some l => 3 + (if Nat.eqb (length (get_list (uris l))) 1 then 1
                             else length (get_list (uris l)))
            | None => 0
            end
          else if String.eqb t "card" then 5
          else if String.eqb t "identity" then 18
          else 0
      | Err _ => 0
      end
  + length (get_list (fields it)) + 3 * length (get_list (attachments it)).

Lemma length_enumerate {A} k (l : list A) : length (enumerate k l) = length l.
Proof. revert k. induction l as [|x l IH]; intros k; simpl; [reflexivity|rewrite IH; reflexivity]. Qed.

Lemma length_attachment_blocks k atts :
  length (flat_map (fun ja : nat * attachment_t =>
            [(attachment_key ja.1 " File Name", fileName ja.2);
             (attachment_key ja.1 " File Size", sizeName ja.2);
             (attachment_key ja.1 " URL", url ja.2)]) (enumerate k atts)) = 3 * length atts.
Proof.
  revert k. induction atts as [|a atts IH]; intros k; [reflexivity|].
  cbn [enumerate flat_map app length]. rewrite IH. lia.
Qed.

Lemma length_attachment_entries atts : length (attachment_entries atts) = 3 * length atts.
Proof. apply length_attachment_blocks. Qed.

(** No assignment of [BWItem.format] (nor of [format_login],
    [format_card], [format_identity], whose dictionaries it merges)
    replaces an earlier entry: the dictionary it builds has exactly one
    entry per assignment, a custom field named like a built-in label
    included. *)
Theorem format_never_overwrites it d :
  format_dict it = Ok d -> length d = assignment_count it.
Proof.
  intros Hd. apply format_dict_shape in Hd as (t & te & Hit & Hte & ->).
  unfold assignment_count. rewrite Hit. cbv beta iota.
  unfold tail_entries. cbn [length]. rewrite !length_app. cbn [length].
  unfold custom_entries. rewrite length_map, length_enumerate, length_attachment_entries.
  assert (Hl : length te =
            if String.eqb t "login" then
              match login it with
              | Some l => 3 + (if Nat.eqb (length (get_list (uris l))) 1 then 1
                               else length (get_list (uris l)))
              | None => 0
              end
            else if String.eqb t "card" then 5
            else if String.eqb t "identity" then 18
            else 0).
  { unfold type_entries in Hte.
    destruct (String.eqb t "login").
    - destruct (login it) as [l|]; simpl in Hte; [|discriminate]. injection Hte as <-.
      unfold login_entries, url_entries. rewrite length_app. cbn [length].
      destruct (get_list (uris l)) as [|u [|u' us]]; [reflexivity|reflexivity|].
      simpl. rewrite length_map, length_enumerate. reflexivity.
    - destruct (String.eqb t "note") eqn:En.
      + injection Hte as <-. apply String.eqb_eq in En. subst t. reflexivity.
      + destruct (String.eqb t "card").
        * destruct (card it); simpl in Hte; [|discriminate]. injection Hte as <-. reflexivity.
        * destruct (String.eqb t "identity").
          -- destruct (identity it); simpl in Hte; [|discriminate]. injection Hte as <-. reflexivity.
          -- injection Hte as <-. reflexivity. }
  rewrite Hl. lia.
Qed.

(** A login with a custom field named "Password". *)
Definition shadow_login : item :=
  {| id := "0a0a-1"; name := "Shop"; type := 1;
     login := Some {| username := None; password := Some "pw"; totp := None; uris := None |};
     card := None; identity := None;
     fields := Some [{| field_name := Some "Password"; field_value := Some "other" |}];
     attachments := None; notes := None |}.

Lemma format_never_overwrites_witness :
  length [("Name", Some "Shop"); ("Username", None); ("Password", Some "pw");
          ("TOTP", None); ("[Custom Field 1] Password", Some "other"); ("Notes", None)]
    = assignment_count shadow_login /\
  assignment_count shadow_login = 6.
Proof.
  split; [|reflexivity].
  apply (format_never_overwrites shadow_login). vm_compute. reflexivity.
Defined.

(** The first line of every body is [Name: <name>], and when the notes
    are non-null the last line is [Notes: <notes>]. *)
Theorem format_first_and_last_lines it ls :
  format_lines it = Ok ls ->
  (exists rest, ls = ("Name: " +:+ name it) :: rest) /\
  (forall v, notes it = Some v -> exists init, ls = init ++ ["Notes: " +:+ v]).
Proof.
  unfold format_lines. destruct (format_dict it) as [d|e] eqn:Hd; [|discriminate].
  intros H. injection H as <-. apply format_dict_shape in Hd as (t & te & _ & _ & ->).
  split.
  - simpl. eexists. reflexivity.
  - intros v Hv. unfold tail_entries. rewrite Hv.
    rewrite (app_assoc (custom_entries _) (attachment_entries _) [("Notes", Some v)]), app_assoc,
      emitted_app, map_app. eexists. reflexivity.
Qed.

Lemma format_first_and_last_lines_witness :
  exists init, sample_login_lines = init ++ ["Notes: savings"].
Proof.
  exact (proj2 (format_first_and_last_lines sample_login sample_login_lines
                  sample_login_format_lines) "savings" eq_refl).
Defined.

(** A card always gets its expiry line: the month and year are joined
    into one non-null value, so a null month or year prints as [None]
    instead of dropping the line. *)
Theorem card_expiry_always_listed it c ls :
  type it = 3%Z -> card it = Some c -> format_lines it = Ok ls ->
  In ("Card Expire MM/YYYY: " +:+ py_str (expMonth c) +:+ "/" +:+ py_str (expYear c)) ls.
Proof.
  intros Ht Hc. unfold format_lines. destruct (format_dict it) as [d|e] eqn:Hd; [|discriminate].
  intros H. injection H as <-. apply format_dict_shape in Hd as (t & te & Hit & Hte & ->).
  unfold item_type in Hit. rewrite Ht in Hit. injection Hit as <-.
  unfold type_entries in Hte. rewrite Hc in Hte. injection Hte as <-.
  refine (in_map render _ ("Card Expire MM/YYYY", py_str (expMonth c) +:+ "/" +:+ py_str (expYear c)) _).
  apply emitted_In. simpl. tauto.
Qed.

Definition undated_card : item :=
  {| id := "c0ffee00-1"; name := "Visa"; type := 3; login := None;
     card := Some {| cardholderName := Some "A B"; brand := Some "Visa"; number := Some "4111";
                     expMonth := None; expYear := None; code := None |};
     identity := None; fields := None; attachments := None; notes := None |}.

Lemma card_expiry_always_listed_witness :
  In "Card Expire MM/YYYY: None/None"
    ["Name: Visa"; "Card Holder Name: A B"; "Card Brand: Visa"; "Card Number: 4111";
     "Card Expire MM/YYYY: None/None"].
Proof.
  exact (card_expiry_always_listed undated_card _ _ eq_refl eq_refl ltac:(vm_compute; reflexivity)).
Defined.

(** When every run of [bw unlock --raw] prints nothing, the unlock loop
    never returns, however many times it runs. *)
Theorem unlock_spins_on_empty_output outs :
  (forall k, outs k = "") -> forall fuel, unlock outs fuel = None.
Proof.
  intros Hempty fuel. destruct (unlock outs fuel) as [s|] eqn:H; [|reflexivity].
  destruct (unlock_from_some _ _ _ _ H) as (i & _ & -> & Hpos & _).
  rewrite Hempty in Hpos. simpl in Hpos. lia.
Qed.

Lemma unlock_spins_on_empty_output_witness : unlock (fun _ => "") 50 = None.
Proof. exact (unlock_spins_on_empty_output (fun _ => "") (fun _ => eq_refl) 50). Defined.

(* ------------------------------------------------------------------ *)
(** ** What main prints *)

(** [Cli.run] / [Cli.run_pipe] echo [> cmd args] when [log_output]. *)
Definition cli_echo (log_output : bool) (command : list string) : list string :=
  if log_output then ["> " +:+ String.concat " " command] else [].

(** [len(s.encode('utf8'))] for the code points 0..255 a string holds. *)
Fixpoint utf8_len (s : string) : nat :=
  match s with
  | EmptyString => 0
  | String c r => (if Nat.ltb (nat_of_ascii c) 128 then 1 else 2) + utf8_len r
  end.

(** [BWCli.unlock] with the lines it prints: each run of the command is
    echoed. *)
Fixpoint unlock_from_io (outs : nat -> string) (fuel k : nat) : list string * option string :=
  match fuel with
  | 0 => ([], None)
  | S f =>
      let echo := cli_echo true ["bw"; "unlock"; "--raw"] in
      let session := outs k in
      if Nat.ltb 0 (String.length session) then (echo, Some session)
      else let '(o, r) := unlock_from_io outs f (S k) in (echo ++ o, r)
  end.

(** [BWCli.sync] and the echo of [BWCli.list_items]. *)
Definition bw_sync (session : string) : list string :=
  cli_echo true ["bw"; "--session"; session; "sync"].

Definition bw_list_items_echo (session : string) : list string :=
  cli_echo true ["bw"; "--session"; session; "list"; "items"].

(** One iteration of main's loop with the lines it prints. *)
Definition process_item_io (s : st) (it : item) : st * list string * result unit :=
  match passname it with
  | Err e => (s, [], Err e)
  | Ok nm =>
      match format it with
      | Err e => (s, [], Err e)
      | Ok content =>
          let '(s', out, r) :=
            if pass_exists (store_of s) nm
            then match remove_force s nm with
                 | (s', Ok _) => (s', ["Removed existing pass entry " +:+ nm], Ok ())
                 | (s', Err e) => (s', [], Err e)
                 end
            else (s, [], Ok ()) in
          match r with
          | Err e => (s', out, Err e)
          | Ok _ =>
              (insert s' nm content,
               out ++ cli_echo false ["pass"; "insert"; "-m"; nm] ++
               ["Inserted " +:+ str_nat (utf8_len content) +:+ " bytes into " +:+ nm], Ok ())
          end
      end
  end.

Fixpoint sync_items_io (s : st) (items : list item) : st * list string * result unit :=
  match items with
  | [] => (s, [], Ok ())
  | it :: rest =>
      match process_item_io s it with
      | (s', o, Err e) => (s', o, Err e)
      | (s', o, Ok _) => let '(s'', o', r) := sync_items_io s' rest in (s'', o ++ o', r)
      end
  end.

Definition banner : list string :=
  ["************************************************************";
   "Note: To ensure a full refresh, logout and login again with:";
   String "009" "bw logout"; String "009" "bw login";
   "************************************************************"].

(** [main] with what it prints; [outs] are the outputs of the unlock
    command and [items] the decoded item list.  The result is [None]
    while the unlock loop is still polling after [fuel] runs. *)
Definition main_io (outs : nat -> string) (fuel : nat) (items : list item) (s : st)
  : st * list string * option (result unit) :=
  let pre := banner ++ ["Unlocking bitwarden"] in
  match unlock_from_io outs fuel 0 with
  | (o, None) => (s, pre ++ o, None)
  | (o, Some session) =>
      let o2 := ["Syncing bitwarden passwords"] ++ bw_sync session ++
                ["Listing bitwarden items"] ++ bw_list_items_echo session in
      let existing := list_pass_names (store_of s) in
      match sync_items_io s items with
      | (s', o3, Err e) => (s', pre ++ o ++ o2 ++ o3, Some (Err e))
      | (s', o3, Ok _) =>
          match mapM passname items with
          | Err e => (s', pre ++ o ++ o2 ++ o3, Some (Err e))
          | Ok synced =>
              let ignored := List.filter (fun e => negb (existsb (String.eqb e) synced)) existing in
              (s', pre ++ o ++ o2 ++ o3 ++ warning_lines ignored, Some (Ok ()))
          end
      end
  end.

Definition stdout_of (r : st * list string * option (result unit)) : list string := r.1.2.

(** Proves [In x l] from a hypothesis [In x l'] with [l'] a part of the
    concatenation [l]. *)
Ltac in_app_search :=
  first [ assumption
        | apply in_or_app; first [ left; in_app_search | right; in_app_search ] ].

Lemma unlock_from_io_result outs fuel k : (unlock_from_io outs fuel k).2 = unlock_from outs fuel k.
Proof.
  revert k. induction fuel as [|f IH]; intros k; [reflexivity|]. simpl.
  destruct (Nat.ltb 0 (String.length (outs k))); [reflexivity|].
  rewrite <- IH. destruct (unlock_from_io outs f (S k)); reflexivity.
Qed.

Lemma process_item_io_agrees s it :
  ((process_item_io s it).1.1, (process_item_io s it).2) = process_item s it.
Proof.
  unfold process_item_io, process_item.
  destruct (passname it) as [nm|e]; [|reflexivity]. destruct (format it) as [c|e]; [|reflexivity].
  destruct (pass_exists (store_of s) nm); [|reflexivity].
  unfold remove_force. destruct (is_file (store_of s) nm); reflexivity.
Qed.

Lemma sync_items_io_agrees s items :
  ((sync_items_io s items).1.1, (sync_items_io s items).2) = sync_items s items.
Proof.
  revert s. induction items as [|it rest IH]; intros s; [reflexivity|]. simpl.
  rewrite <- process_item_io_agrees.
  destruct (process_item_io s it) as [[s1 o] [u|e]]; simpl; [|reflexivity].
  rewrite <- IH. destruct (sync_items_io s1 rest) as [[s2 o'] r]. reflexivity.
Qed.

(** Once unlock has returned, [main_io] leaves the store and log
    [main_run] leaves, and fails exactly when [main_run] fails. *)
Lemma main_io_agrees outs fuel items s tok :
  unlock outs fuel = Some tok ->
  (main_io outs fuel items s).1.1 = fst (main_run items s) /\
  (main_io outs fuel items s).2 =
    Some (match snd (main_run items s) with Ok _ => Ok () | Err e => Err e end).
Proof.
  intros Hu. unfold unlock in Hu. rewrite <- unlock_from_io_result in Hu.
  unfold main_io, main_run. destruct (unlock_from_io outs fuel 0) as [o r]. simpl in Hu. subst r.
  rewrite <- sync_items_io_agrees.
  destruct (sync_items_io s items) as [[s' o3] [u|e]]; simpl; [|auto].
  destruct (mapM passname items); simpl; auto.
Qed.

(** Two items look the same to main's printing when they have the same
    entry name and either bodies of the same length in bytes or the same
    formatting error. *)
Definition same_visible (a b : item) : Prop :=
  passname a = passname b /\
  match format a, format b with
  | Ok x, Ok y => utf8_len x = utf8_len y
  | Err e1, Err e2 => e1 = e2
  | _, _ => False
  end.

Lemma list_pass_names_dom (m1 m2 : store) : dom m1 = dom m2 -> list_pass_names m1 = list_pass_names m2.
Proof. intros H. unfold list_pass_names, scandir. rewrite H. reflexivity. Qed.

Lemma process_item_io_ni s t a b :
  dom (store_of s) = dom (store_of t) -> same_visible a b ->
  (process_item_io s a).1.2 = (process_item_io t b).1.2 /\
  (process_item_io s a).2 = (process_item_io t b).2 /\
  dom (store_of (process_item_io s a).1.1) = dom (store_of (process_item_io t b).1.1).
Proof.
  intros Hd [Hp Hf]. unfold process_item_io. rewrite Hp.
  destruct (passname b) as [nm|e]; [|auto].
  destruct (format a) as [x|e1], (format b) as [y|e2]; try contradiction; [|subst; auto].
  rewrite (pass_exists_dom _ _ nm Hd). destruct (pass_exists (store_of t) nm).
  - unfold remove_force. rewrite (is_file_dom _ _ nm Hd). destruct (is_file (store_of t) nm).
    + simpl. rewrite Hf. split; [reflexivity|split; [reflexivity|]].
      rewrite !dom_insert_L, !dom_delete_L, Hd. reflexivity.
    + simpl. auto.
  - simpl. rewrite Hf. split; [reflexivity|split; [reflexivity|]].
    rewrite !dom_insert_L, Hd. reflexivity.
Qed.

Lemma sync_items_io_ni s t items1 items2 :
  dom (store_of s) = dom (store_of t) -> Forall2 same_visible items1 items2 ->
  (sync_items_io s items1).1.2 = (sync_items_io t items2).1.2 /\
  (sync_items_io s items1).2 = (sync_items_io t items2).2.
Proof.
  intros Hd H. revert s t Hd. induction H as [|a b l1 l2 Hab _ IH]; intros s t Hd; [auto|].
  simpl. destruct (process_item_io_ni s t a b Hd Hab) as (Ho & Hr & Hd').
  destruct (process_item_io s a) as [[s1 o1] r1], (process_item_io t b) as [[t1 p1] q1].
  simpl in Ho, Hr, Hd'. subst p1 q1.
  destruct r1 as [u|e]; [|auto].
  destruct (IH s1 t1 Hd') as [Ho' Hr'].
  destruct (sync_items_io s1 l1) as [[s2 o2] r2], (sync_items_io t1 l2) as [[t2 p2] q2].
  simpl in *. subst. auto.
Qed.

Lemma mapM_passname_same items1 items2 :
  Forall2 same_visible items1 items2 -> mapM passname items1 = mapM passname items2.
Proof.
  induction 1 as [|a b l1 l2 [Hp _] _ IH]; [reflexivity|]. simpl. rewrite Hp, IH. reflexivity.
Qed.

(** What main prints never depends on the bodies it writes beyond their
    length in bytes: two item lists with the same entry names, bodies of
    the same lengths and the same errors, run on stores with the same
    entry names whose directory listings come in the same order, print
    the same lines and end the same way.  In particular no password or
    other field value is printed. *)
Theorem stdout_hides_bodies outs fuel items1 items2 s1 s2 :
  dom (store_of s1) = dom (store_of s2) ->
  list_pass_names (store_of s1) = list_pass_names (store_of s2) ->
  Forall2 same_visible items1 items2 ->
  stdout_of (main_io outs fuel items1 s1) = stdout_of (main_io outs fuel items2 s2) /\
  (main_io outs fuel items1 s1).2 = (main_io outs fuel items2 s2).2.
Proof.
  intros Hd Hls H. unfold stdout_of, main_io.
  destruct (unlock_from_io outs fuel 0) as [o [tok|]]; [|auto].
  rewrite Hls, (mapM_passname_same _ _ H).
  destruct (sync_items_io_ni s1 s2 items1 items2 Hd H) as [Ho Hr].
  destruct (sync_items_io s1 items1) as [[t1 o1] r1], (sync_items_io s2 items2) as [[t2 p1] q1].
  simpl in Ho, Hr. subst. destruct q1; [|auto].
  destruct (mapM passname items2); auto.
Qed.

Definition secret_note (secret : string) : item :=
  {| id := "5ec1-2"; name := "Vault"; type := 2; login := None; card := None; identity := None;
     fields := None; attachments := None; notes := Some secret |}.

Lemma stdout_hides_bodies_witness :
  stdout_of (main_io (fun _ => "tok") 1 [secret_note "hunter2"] {| store_of := ∅; log := [] |}) =
  stdout_of (main_io (fun _ => "tok") 1 [secret_note "abcdefg"] {| store_of := ∅; log := [] |}).
Proof.
  apply (stdout_hides_bodies _ _ _ _ _ _ eq_refl eq_refl). constructor; [|constructor].
  split; [reflexivity|]. vm_compute. reflexivity.
Defined.

(** main prints the session token that unlock returned: it is echoed
    with the [bw --session <token> sync] and [bw --session <token> list
    items] commands. *)
Theorem session_token_echoed outs fuel items s tok :
  unlock outs fuel = Some tok ->
  In ("> bw --session " +:+ tok +:+ " sync") (stdout_of (main_io outs fuel items s)) /\
  In ("> bw --session " +:+ tok +:+ " list items") (stdout_of (main_io outs fuel items s)).
Proof.
  intros Hu. unfold unlock in Hu. rewrite <- unlock_from_io_result in Hu.
  unfold stdout_of, main_io.
  destruct (unlock_from_io outs fuel 0) as [o r]. simpl in Hu. subst r.
  assert (H1 : In ("> bw --session " +:+ tok +:+ " sync") (bw_sync tok)) by (left; reflexivity).
  assert (H2 : In ("> bw --session " +:+ tok +:+ " list items") (bw_list_items_echo tok))
    by (left; reflexivity).
  destruct (sync_items_io s items) as [[s' o3] [u|e]]; [destruct (mapM passname items)|];
    split; in_app_search.
Qed.

Lemma session_token_echoed_witness :
  In "> bw --session tok sync" (stdout_of (main_io (fun _ => "tok") 1 [] {| store_of := ∅; log := [] |})).
Proof. exact (proj1 (session_token_echoed (fun _ => "tok") 1 [] _ "tok" eq_refl)). Defined.

(* ------------------------------------------------------------------ *)
(** ** Orphan entries *)














